(** * linux-networkspeed-exporter: the sampling engine, the sample store and
      the IP allow-list of [main.go]

    The development follows [main.go] function by function:
    - [cleanupOldInterfaces] (stale eviction, then capacity enforcement),
    - the body of the scanning loop of [collectNetworkSpeeds] ([processLine])
      and one turn of its outer [for] loop ([iteration]),
    - [isIPAllowed].

    Modelling choices, all visible in the definitions below:
    - Go strings are byte strings ([string]); [uint64] counters are [Z] with
      the wrap-around of the subtraction written out;
    - [time.Time] values all come from [time.Now] in one process, so they
      carry a monotonic reading: a time is that reading, a signed 64-bit
      count of nanoseconds, and [Sub] saturates as Go's does;
    - [float64] gauge values are exact rationals ([Q]): rounding is not part
      of the model;
    - a gauge is reached through [With], which panics when a label value is
      not valid UTF-8: a line, a turn and the loop end in an [Outcome],
      either [Continue] with the next state or [Panicked] with the state
      the process dies in;
    - the operating system (opening /proc/net/dev, interface flags, the
      ifalias file, the clock) and Go's randomised map iteration order are
      inputs of the functions;
    - the Unicode-aware library functions ([strings.Fields],
      [strings.TrimSpace], [fmt.Sscanf]) are the members of the class
      [GoText]; [ascii_text] is their restriction to ASCII text and is used
      to run the model. *)

From Stdlib Require Import ZArith QArith Lia List Ascii String Permutation.
From stdpp Require Import base tactics option list strings gmap fin_maps sorting pretty.

Local Open Scope string_scope.
Local Open Scope Z_scope.

(** ** Byte-level library functions *)

(** [strings.HasSuffix]. *)
Definition HasSuffix (s suffix : string) : bool :=
  (String.length suffix <=? String.length s)%nat
  && String.eqb
       (substring (String.length s - String.length suffix) (String.length suffix) s)
       suffix.

(** [strings.TrimSuffix]: [s] without the trailing [suffix], or [s] itself. *)
Definition TrimSuffix (s suffix : string) : string :=
  if HasSuffix s suffix
  then substring 0 (String.length s - String.length suffix) s
  else s.

(** [strings.IndexByte] and [strings.LastIndexByte]; [None] is Go's -1. *)
Fixpoint IndexByte (s : string) (c : ascii) : option nat :=
  match s with
  | EmptyString => None
  | String a r => if Ascii.eqb a c then Some O else S <$> IndexByte r c
  end.

Fixpoint LastIndexByte (s : string) (c : ascii) : option nat :=
  match s with
  | EmptyString => None
  | String a r =>
      match LastIndexByte r c with
      | Some i => Some (S i)
      | None => if Ascii.eqb a c then Some O else None
      end
  end.

(** [s[n:]]. *)
Definition sliceFrom (n : nat) (s : string) : string :=
  substring n (String.length s - n) s.

(** [strings.Split(s, sep)] for a one-byte separator: the pieces between the
    occurrences of [sep]; never empty. *)
Fixpoint Split (s : string) (sep : ascii) : list string :=
  match s with
  | EmptyString => [EmptyString]
  | String a r =>
      if Ascii.eqb a sep then EmptyString :: Split r sep
      else match Split r sep with
           | p :: ps => String a p :: ps
           | [] => [String a EmptyString]
           end
  end.

(** [net.SplitHostPort]: [Some (host, port)], or [None] for an address
    error (missing port, too many colons, misplaced brackets). *)
Definition SplitHostPort (hostport : string) : option (string * string) :=
  match LastIndexByte hostport ":" with
  | None => None
  | Some i =>
      let checked (host : string) (j k : nat) :=
        if IndexByte (sliceFrom j hostport) "[" is Some _ then None
        else if IndexByte (sliceFrom k hostport) "]" is Some _ then None
        else Some (host, sliceFrom (S i) hostport) in
      match String.get 0 hostport with
      | Some "["%char =>
          match IndexByte hostport "]" with
          | None => None
          | Some end_ =>
              if (S end_ =? String.length hostport)%nat then None
              else if (S end_ =? i)%nat
                   then checked (substring 1 (end_ - 1) hostport) 1%nat (S end_)
                   else None
          end
      | _ =>
          let host := substring 0 i hostport in
          if IndexByte host ":" is Some _ then None else checked host O O
      end
  end.

(** [utf8.ValidString]: the bytes of [s] are well-formed UTF-8 (no
    overlong form, no surrogate, nothing above U+10FFFF). *)
Definition byteIn (lo hi : nat) (c : ascii) : bool :=
  let n := nat_of_ascii c in ((lo <=? n) && (n <=? hi))%nat.

Fixpoint ValidString (s : string) : bool :=
  match s with
  | EmptyString => true
  | String c0 r =>
    if byteIn 0 127 c0 then ValidString r else
    match r with
    | EmptyString => false
    | String c1 r1 =>
      if byteIn 194 223 c0 then byteIn 128 191 c1 && ValidString r1 else
      match r1 with
      | EmptyString => false
      | String c2 r2 =>
        let second3 :=
          if byteIn 224 224 c0 then byteIn 160 191 c1
          else if byteIn 237 237 c0 then byteIn 128 159 c1
          else byteIn 128 191 c1 in
        if byteIn 224 239 c0
        then second3 && byteIn 128 191 c2 && ValidString r2 else
        match r2 with
        | EmptyString => false
        | String c3 r3 =>
          let second4 :=
            if byteIn 240 240 c0 then byteIn 144 191 c1
            else if byteIn 244 244 c0 then byteIn 128 143 c1
            else byteIn 128 191 c1 in
          byteIn 240 244 c0 && second4 && byteIn 128 191 c2
          && byteIn 128 191 c3 && ValidString r3
        end
      end
    end
  end.

(** ** Unicode-aware library functions

    [Fields] is [strings.Fields], [TrimSpace] is [strings.TrimSpace] and
    [Sscanf_d s] is [fmt.Sscanf(s, "%d", &v)] for a [v] of type [uint64]:
    [Some n] when [n] was stored into [v], [None] when the scan failed and
    [v] was left as it was. *)
Class GoText := {
  Fields : string → list string;
  TrimSpace : string → string;
  Sscanf_d : string → option Z
}.

(** A value of type [uint64]. *)
Definition uint64 (v : Z) : Prop := 0 ≤ v < 2 ^ 64.

(** What the model relies on: a scanned [uint64] is one. *)
Class GoTextLaws `{GoText} : Prop := {
  Sscanf_d_uint64 : ∀ s v, Sscanf_d s = Some v → uint64 v
}.

(** *** Their restriction to ASCII text *)

Definition asciiSpace (c : ascii) : bool :=
  let n := nat_of_ascii c in
  ((9 <=? n) && (n <=? 13) || (n =? 32))%nat.

(** [fieldsGo cur s]: [cur] is the field being read, in reverse. *)
Fixpoint fieldsGo (cur : list ascii) (s : string) : list string :=
  let flush (k : list string) :=
    match cur with [] => k | _ => string_of_list_ascii (rev cur) :: k end in
  match s with
  | EmptyString => flush []
  | String a r =>
      if asciiSpace a then flush (fieldsGo [] r) else fieldsGo (a :: cur) r
  end.

Definition Fields_ascii (s : string) : list string := fieldsGo [] s.

Fixpoint trimLeft (s : string) : string :=
  match s with
  | String a r => if asciiSpace a then trimLeft r else s
  | EmptyString => s
  end.

Definition revString (s : string) : string :=
  string_of_list_ascii (rev (list_ascii_of_string s)).

Definition TrimSpace_ascii (s : string) : string :=
  revString (trimLeft (revString (trimLeft s))).

Definition isDigit (c : ascii) : bool :=
  let n := nat_of_ascii c in ((48 <=? n) && (n <=? 57))%nat.

(** For [%d] the scanner accepts the characters of "0123456789" ... *)
Fixpoint scanNumber (s : string) : list ascii :=
  match s with
  | String a r => if isDigit a then a :: scanNumber r else []
  | EmptyString => []
  end.

(** ... and [strconv.ParseUint(tok, 10, 64)] then refuses a value that does
    not fit 64 bits. *)
Fixpoint parseDigits (acc : Z) (tok : list ascii) : option Z :=
  match tok with
  | [] => Some acc
  | a :: r =>
      if isDigit a
      then parseDigits (10 * acc + (Z.of_nat (nat_of_ascii a) - 48)) r
      else None
  end.

(** White space before the number is skipped; a newline is an error. *)
Fixpoint skipSpace (s : string) : option string :=
  match s with
  | String a r =>
      if Ascii.eqb a "010" then None
      else if asciiSpace a then skipSpace r
      else Some s
  | EmptyString => Some s
  end.

Definition Sscanf_d_ascii (s : string) : option Z :=
  match skipSpace s with
  | None => None
  | Some s' =>
      match scanNumber s' with
      | [] => None
      | tok =>
          match parseDigits 0 tok with
          | Some v => if v <? 2 ^ 64 then Some v else None
          | None => None
          end
      end
  end.

#[export] Instance ascii_text : GoText := {|
  Fields := Fields_ascii;
  TrimSpace := TrimSpace_ascii;
  Sscanf_d := Sscanf_d_ascii
|}.


(** ** Time

    A [time.Time] obtained from [time.Now] is its monotonic clock reading in
    nanoseconds; a [time.Duration] is a signed 64-bit count of
    nanoseconds. *)

Definition Second : Z := 1000000000.
Definition Minute : Z := 60 * Second.
Definition maxDuration : Z := 2 ^ 63 - 1.
Definition minDuration : Z := - 2 ^ 63.

(** Two's complement wrap-around of a 64-bit signed result. *)
Definition wrapInt64 (x : Z) : Z := (x + 2 ^ 63) mod 2 ^ 64 - 2 ^ 63.

(** [t.Sub(u)]: the difference of the readings, saturated. *)
Definition Sub (t u : Z) : Z :=
  let d := wrapInt64 (t - u) in
  if (d <? 0) && (u <? t) then maxDuration
  else if (0 <? d) && (t <? u) then minDuration
  else d.

(** [t.Before(u)]. *)
Definition Before (t u : Z) : bool := t <? u.

(** [d.Seconds()]: whole seconds plus the remaining nanoseconds over 1e9. *)
Definition Seconds (d : Z) : Q :=
  (inject_Z (Z.quot d Second) + inject_Z (Z.rem d Second) / inject_Z 1000000000)%Q.

(** A clock reading of a running process. *)
Definition clockReading (t : Z) : Prop := 0 ≤ t < 2 ^ 63.

(** ** Constants of [main.go] *)

Definition bytesToBits : Q := inject_Z 8.
Definition maxInterfaces : nat := 1000.
Definition cleanupInterval : Z := 5 * Minute.

(** [net.FlagUp] and [net.FlagLoopback]. *)
Definition FlagUp : Z := 1.
Definition FlagLoopback : Z := 4.

(** ** Data model *)

(** The value type of [prevStats.stats]. *)
Record Stats := mkStats {
  rxBytes : Z; txBytes : Z;
  rxPackets : Z; txPackets : Z;
  rxErrors : Z; txErrors : Z;
  rxDrops : Z; txDrops : Z;
  time : Z;
  lastSeen : Z
}.

(** The five gauge vectors of the registry. *)
Inductive GaugeVec :=
  | networkSpeedBits | networkErrors | networkDrops
  | networkPackets | networkInterfaceInfo.

#[export] Instance GaugeVec_eq_dec : EqDecision GaugeVec.
Proof. solve_decision. Defined.

#[export] Instance GaugeVec_countable : Countable GaugeVec.
Proof.
  refine (inj_countable'
    (λ v, match v with
          | networkSpeedBits => 0%nat | networkErrors => 1%nat
          | networkDrops => 2%nat | networkPackets => 3%nat
          | networkInterfaceInfo => 4%nat end)
    (λ n, match n with
          | 0%nat => networkSpeedBits | 1%nat => networkErrors
          | 2%nat => networkDrops | 3%nat => networkPackets
          | _ => networkInterfaceInfo end) _).
  by intros [].
Defined.

(** A gauge is addressed by its vector and its two label values. *)
Definition GaugeKey : Type := GaugeVec * (string * string).

(** The state the sampling loop works on: the sample store, the current
    gauge values, the [Set] calls made so far (oldest first), and the
    loop-local [currentInterfaces] map of the turn in progress. *)
Record State := mkState {
  prevStats : gmap string Stats;
  gauges : gmap GaugeKey Q;
  published : list (GaugeKey * Q);
  currentInterfaces : gset string
}.

(** How a piece of the loop ends: it goes on with a state, or a panic ends
    the process in the state reached. *)
Inductive Outcome :=
  | Continue (s : State)
  | Panicked (s : State).

Definition stateOf (o : Outcome) : State :=
  match o with Continue s | Panicked s => s end.

(** Sequencing: nothing runs after a panic. *)
Definition andThen (o : Outcome) (k : State → Outcome) : Outcome :=
  match o with
  | Continue s => k s
  | Panicked s => Panicked s
  end.

Notation "'do' s <- o ; k" := (andThen o (λ s, k))
  (at level 10, s name, o at level 100, k at level 200,
   format "'[v' 'do'  s  <-  o ; '/' k ']'").

(** [Set(v)] on the gauge a vector holds for the two label values. *)
Definition setValue (vec : GaugeVec) (l1 l2 : string) (v : Q) (s : State) : State :=
  {| prevStats := prevStats s;
     gauges := <[(vec, (l1, l2)) := v]> (gauges s);
     published := published s ++ [((vec, (l1, l2)), v)];
     currentInterfaces := currentInterfaces s |}.

(** [vec.With(labels).Set(v)]: [With] panics when a label value is not
    valid UTF-8 (the label names are the vector's own). *)
Definition GaugeSet (vec : GaugeVec) (l1 l2 : string) (v : Q) (s : State)
    : Outcome :=
  if ValidString l1 && ValidString l2
  then Continue (setValue vec l1 l2 v s)
  else Panicked s.

(** [prevStats.stats[name] = st]. *)
Definition storeStats (name : string) (st : Stats) (s : State) : State :=
  {| prevStats := <[name := st]> (prevStats s);
     gauges := gauges s;
     published := published s;
     currentInterfaces := currentInterfaces s |}.

(** [currentInterfaces[name] = true]. *)
Definition markCurrent (name : string) (s : State) : State :=
  {| prevStats := prevStats s;
     gauges := gauges s;
     published := published s;
     currentInterfaces := {[name]} ∪ currentInterfaces s |}.

(** ** [cleanupOldInterfaces] *)

(** [sort.Slice]: the library promises a sorted permutation and no
    stability. The model is an insertion sort; run on every possible
    iteration order of the map it reaches every sorted permutation
    ([sortSlice_reaches_all]). *)
Section sortSlice.
Context {A : Type} (less : A → A → bool).

Fixpoint insertSorted (x : A) (l : list A) : list A :=
  match l with
  | [] => [x]
  | y :: r => if less y x then y :: insertSorted x r else x :: l
  end.

Definition sortSlice (l : list A) : list A := foldr insertSorted [] l.
End sortSlice.

(** [prevStats.stats[name].lastSeen]; a missing key reads the zero value. *)
Definition lastSeenOf (stats : gmap string Stats) (name : string) : Z :=
  match stats !! name with
  | Some st => lastSeen st
  | None => 0
  end.

(** The keys of the store, in the store's own order. *)
Definition keys (stats : gmap string Stats) : list string :=
  (map_to_list stats).*1.

(** First loop: every entry not seen for more than [cleanupInterval] goes. *)
Definition evictStale (now : Z) (stats : gmap string Stats) : gmap string Stats :=
  filter (λ kv, ¬ (cleanupInterval < Sub now (lastSeen kv.2))) stats.

(** Second part: [order] is the order in which [range] yields the keys. *)
Definition enforceCapacity (order : list string) (stats : gmap string Stats)
    : gmap string Stats :=
  if (maxInterfaces <? size stats)%nat then
    let interfaces :=
      sortSlice (λ a b, Before (lastSeenOf stats a) (lastSeenOf stats b)) order in
    foldl (λ m iface, delete iface m) stats
          (take (length interfaces - maxInterfaces) interfaces)
  else stats.

Definition cleanupOldInterfaces (now : Z) (order : list string)
    (stats : gmap string Stats) : gmap string Stats :=
  enforceCapacity order (evictStale now stats).

(** ** The scanning loop of [collectNetworkSpeeds] *)

(** What the operating system answers while one line is processed:
    [net.InterfaceByName] (the interface flags, or [None] for an error),
    [os.ReadFile] (the contents, or [None] for an error) and [time.Now]. *)
Record World := mkWorld {
  InterfaceByName : string → option Z;
  ReadFile : string → option string;
  Now : Z
}.

(** [uint64] subtraction. *)
Definition subUint64 (a b : Z) : Z := (a - b) mod 2 ^ 64.

Definition fieldAt (fields : list string) (i : nat) : string := nth i fields "".

Section engine.
Context `{GoText}.

(** [var v uint64; fmt.Sscanf(field, "%d", &v)]: the error is dropped, and
    [v] keeps its zero value when nothing was stored. *)
Definition scanCounter (field : string) : Z :=
  match Sscanf_d field with
  | Some v => v
  | None => 0
  end.

(** The body of [for scanner.Scan() { ... }] for one line. *)
Definition processLine (w : World) (line : string) (s : State) : Outcome :=
  let fields := Fields line in
  if (length fields <? 17)%nat then Continue s else
  let ifaceName := TrimSuffix (fieldAt fields 0) ":" in
  let s := markCurrent ifaceName s in
  match InterfaceByName w ifaceName with
  | None => Continue s
  | Some flags =>
    if negb (Z.land flags FlagLoopback =? 0) || (Z.land flags FlagUp =? 0)
    then Continue s else
    let description :=
      match ReadFile w ("/sys/class/net/" ++ ifaceName ++ "/ifalias") with
      | Some descBytes => TrimSpace descBytes
      | None => "Unknown"
      end in
    do s <- GaugeSet networkInterfaceInfo ifaceName description (inject_Z 1) s;
    let rxBytes' := scanCounter (fieldAt fields 1) in
    let rxPackets' := scanCounter (fieldAt fields 2) in
    let rxErrors' := scanCounter (fieldAt fields 3) in
    let rxDrops' := scanCounter (fieldAt fields 4) in
    let txBytes' := scanCounter (fieldAt fields 9) in
    let txPackets' := scanCounter (fieldAt fields 10) in
    let txErrors' := scanCounter (fieldAt fields 11) in
    let txDrops' := scanCounter (fieldAt fields 12) in
    let now := Now w in
    do s <-
      match prevStats s !! ifaceName with
      | Some prev =>
        let timeDiff := Seconds (Sub now (time prev)) in
        if Qlt_le_dec 0 timeDiff then
          let rxSpeed :=
            (inject_Z (subUint64 rxBytes' (rxBytes prev)) * bytesToBits / timeDiff)%Q in
          do s <- GaugeSet networkSpeedBits ifaceName "receive" rxSpeed s;
          let txSpeed :=
            (inject_Z (subUint64 txBytes' (txBytes prev)) * bytesToBits / timeDiff)%Q in
          do s <- GaugeSet networkSpeedBits ifaceName "transmit" txSpeed s;
          do s <- GaugeSet networkErrors ifaceName "receive" (inject_Z rxErrors') s;
          do s <- GaugeSet networkErrors ifaceName "transmit" (inject_Z txErrors') s;
          do s <- GaugeSet networkDrops ifaceName "receive" (inject_Z rxDrops') s;
          do s <- GaugeSet networkDrops ifaceName "transmit" (inject_Z txDrops') s;
          do s <- GaugeSet networkPackets ifaceName "receive" (inject_Z rxPackets') s;
          GaugeSet networkPackets ifaceName "transmit" (inject_Z txPackets') s
        else Continue s
      | None => Continue s
      end;
    Continue
      (storeStats ifaceName
         {| rxBytes := rxBytes'; txBytes := txBytes';
            rxPackets := rxPackets'; txPackets := txPackets';
            rxErrors := rxErrors'; txErrors := txErrors';
            rxDrops := rxDrops'; txDrops := txDrops';
            time := now; lastSeen := now |} s)
  end.

(** The lines the scanner yields, each with the world it is processed in;
    a panic ends the scan. *)
Fixpoint scanLines (lines : list (World * string)) (s : State) : Outcome :=
  match lines with
  | [] => Continue s
  | wl :: rest => do s <- processLine wl.1 wl.2 s; scanLines rest s
  end.

(** ** One turn of the outer loop *)

Inductive Effect :=
  | LogPrintf (msg : string)
  | Sleep (d : Z).

Inductive OpenResult :=
  | OpenError (err : string)
  | Opened (lines : list (World * string)).

(** The inputs of one turn: the result of [os.Open] with the lines read,
    the clock reading taken by [cleanupOldInterfaces] and the order in
    which its [range] yields the keys. *)
Record Turn := mkTurn {
  opened : OpenResult;
  cleanupNow : Z;
  rangeOrder : list string
}.

Definition iteration (t : Turn) (s : State) : Outcome * list Effect :=
  match opened t with
  | OpenError err =>
      (Continue s,
       [LogPrintf ("Error opening /proc/net/dev: " ++ err); Sleep Second])
  | Opened lines =>
      let s := {| prevStats := prevStats s; gauges := gauges s;
                  published := published s; currentInterfaces := ∅ |} in
      (* the two header lines are read and dropped *)
      match scanLines (drop 2 lines) s with
      | Panicked s => (Panicked s, [])
      | Continue s =>
          let s := {| prevStats :=
                        cleanupOldInterfaces (cleanupNow t) (rangeOrder t)
                          (prevStats s);
                      gauges := gauges s; published := published s;
                      currentInterfaces := currentInterfaces s |} in
          (Continue s, [Sleep Second])
      end
  end.

(** The first [length turns] turns of [for { ... }], or fewer when one of
    them panics. *)
Fixpoint collectNetworkSpeeds (turns : list Turn) (s : State)
    : Outcome * list Effect :=
  match turns with
  | [] => (Continue s, [])
  | t :: rest =>
      match iteration t s with
      | (Continue s1, e1) =>
          let '(o, e2) := collectNetworkSpeeds rest s1 in
          (o, (e1 ++ e2)%list)
      | (Panicked s1, e1) => (Panicked s1, e1)
      end
  end.

(** ** [isIPAllowed] *)

(** The [for _, allowedIP := range allowedList] loop with its early
    return. *)
Fixpoint matchAllowed (ip : string) (allowedList : list string) : bool :=
  match allowedList with
  | [] => false
  | allowedIP :: rest =>
      let allowedIP := TrimSpace allowedIP in
      if String.eqb ip allowedIP then true else matchAllowed ip rest
  end.

(** The source address the request is judged by. *)
Definition sourceIP (remoteAddr : string) : string :=
  match SplitHostPort remoteAddr with
  | Some (ip, _) => ip
  | None => remoteAddr
  end.

(** [allowedIPs] is the value of the flag. *)
Definition isIPAllowed (allowedIPs remoteAddr : string) : bool :=
  if String.eqb allowedIPs "" then true
  else matchAllowed (sourceIP remoteAddr) (Split allowedIPs ",").

(** ** Vocabulary of the statements *)

(** The interface a line is about, the description looked up for it and
    the sample read from its columns, as [processLine] computes them. *)
Definition ifaceNameOf (line : string) : string :=
  TrimSuffix (fieldAt (Fields line) 0) ":".

Definition descriptionOf (w : World) (line : string) : string :=
  match ReadFile w ("/sys/class/net/" ++ ifaceNameOf line ++ "/ifalias") with
  | Some descBytes => TrimSpace descBytes
  | None => "Unknown"
  end.

Definition readingOf (w : World) (line : string) : Stats :=
  let fields := Fields line in
  {| rxBytes := scanCounter (fieldAt fields 1);
     txBytes := scanCounter (fieldAt fields 9);
     rxPackets := scanCounter (fieldAt fields 2);
     txPackets := scanCounter (fieldAt fields 10);
     rxErrors := scanCounter (fieldAt fields 3);
     txErrors := scanCounter (fieldAt fields 11);
     rxDrops := scanCounter (fieldAt fields 4);
     txDrops := scanCounter (fieldAt fields 12);
     time := Now w; lastSeen := Now w |}.

(** The line passes the shape check. *)
Definition enoughFields (line : string) : Prop :=
  (17 ≤ length (Fields line))%nat.

(** The interface resolves, is administratively up and is no loopback. *)
Definition live (w : World) (name : string) : Prop :=
  ∃ flags, InterfaceByName w name = Some flags
           ∧ Z.land flags FlagLoopback = 0 ∧ Z.land flags FlagUp ≠ 0.

(** Both label values of the line's interface-info gauge are valid UTF-8
    (the other gauges of the line carry the interface name and "receive"
    or "transmit"). *)
Definition labelsValid (w : World) (line : string) : bool :=
  ValidString (ifaceNameOf line) && ValidString (descriptionOf w line).

(** The [Set] calls made while [line] is processed. *)
Definition publishedBy (w : World) (line : string) (s : State)
    : list (GaugeKey * Q) :=
  drop (length (published s)) (published (stateOf (processLine w line s))).

(** A stored sample holds [uint64] byte counters and clock readings. *)
Definition wfStats (st : Stats) : Prop :=
  uint64 (rxBytes st) ∧ uint64 (txBytes st)
  ∧ clockReading (time st) ∧ clockReading (lastSeen st).

Definition wfStore (stats : gmap string Stats) : Prop :=
  map_Forall (λ _ st, wfStats st) stats.

(** The gauges other than the interface-info gauge. *)
Definition isRateGauge (k : GaugeKey) : Prop := k.1 ≠ networkInterfaceInfo.

(** The rate branch of [processLine], for a previous sample [prev]. *)
Definition rateWrites (name : string) (cur prev : Stats) : list (GaugeKey * Q) :=
  let timeDiff := Seconds (Sub (time cur) (time prev)) in
  [ ((networkSpeedBits, (name, "receive")),
     (inject_Z (subUint64 (rxBytes cur) (rxBytes prev)) * bytesToBits / timeDiff)%Q);
    ((networkSpeedBits, (name, "transmit")),
     (inject_Z (subUint64 (txBytes cur) (txBytes prev)) * bytesToBits / timeDiff)%Q);
    ((networkErrors, (name, "receive")), inject_Z (rxErrors cur));
    ((networkErrors, (name, "transmit")), inject_Z (txErrors cur));
    ((networkDrops, (name, "receive")), inject_Z (rxDrops cur));
    ((networkDrops, (name, "transmit")), inject_Z (txDrops cur));
    ((networkPackets, (name, "receive")), inject_Z (rxPackets cur));
    ((networkPackets, (name, "transmit")), inject_Z (txPackets cur)) ].

(** The [Set] calls of a line that is not skipped and whose labels are
    valid, given the store. *)
Definition writesOf (w : World) (line : string) (stats : gmap string Stats)
    : list (GaugeKey * Q) :=
  ((networkInterfaceInfo, (ifaceNameOf line, descriptionOf w line)), inject_Z 1)
  :: match stats !! ifaceNameOf line with
     | Some prev =>
         if Qlt_le_dec 0 (Seconds (Sub (Now w) (time prev)))
         then rateWrites (ifaceNameOf line) (readingOf w line) prev
         else []
     | None => []
     end.

(** The gauge values after a list of [Set] calls. *)
Definition applyWrites (ws : list (GaugeKey * Q)) (g : gmap GaugeKey Q) :=
  foldl (λ g kv, <[kv.1 := kv.2]> g) g ws.
End engine.

(** ** Sample inputs *)

(** An interface that is up ([FlagUp|FlagBroadcast]) and has no alias. *)
Definition worldUp (now : Z) : World :=
  {| InterfaceByName := λ _, Some 3; ReadFile := λ _, None; Now := now |}.


(** The same interface, administratively down ([FlagBroadcast] only). *)
Definition worldDown (now : Z) : World :=
  {| InterfaceByName := λ _, Some 2; ReadFile := λ _, None; Now := now |}.

Definition emptyState : State :=
  {| prevStats := ∅; gauges := ∅; published := []; currentInterfaces := ∅ |}.

Definition lineA : string :=
  "  eth0: 1000 10 0 0 0 0 0 0 500 5 0 0 0 0 0 0".
Definition lineB : string :=
  "  eth0: 2000 20 1 2 0 0 0 0 1500 15 3 4 0 0 0 0".
Definition lineReset : string :=
  "  eth0: 500 20 1 2 0 0 0 0 100 15 3 4 0 0 0 0".
Definition lineGarbled : string :=
  "  eth0: 12x4 ?? 1 2 0 0 0 0 -7 15 3 4 0 0 0 0".

(** The state after [lineA] was read at second 1, and then [lineB] at
    second 2. *)
Definition stateA : State :=
  stateOf (processLine (worldUp 1000000000) lineA emptyState).
Definition stateB : State :=
  stateOf (processLine (worldUp 2000000000) lineB stateA).

(** A turn that reads the two header lines and [lineA], and one in which
    /proc/net/dev cannot be opened. *)
Definition turnA : Turn :=
  {| opened := Opened
       [ (worldUp 1000000000, "Inter-|   Receive                |  Transmit");
         (worldUp 1000000000, " face |bytes    packets errs drop|bytes    packets");
         (worldUp 1000000000, lineA) ];
     cleanupNow := 1000000000;
     rangeOrder := ["eth0"] |}.


Definition turnFailed : Turn :=
  {| opened := OpenError "open /proc/net/dev: no such file or directory";
     cleanupNow := 0;
     rangeOrder := [] |}.

(** Stores of [n] interfaces eth0, eth1, ...; interface [i] was last seen at
    [seen i]. *)
Definition ifname (i : nat) : string := "eth" +:+ pretty i.

Definition sampleAt (t : Z) : Stats :=
  {| rxBytes := 0; txBytes := 0; rxPackets := 0; txPackets := 0;
     rxErrors := 0; txErrors := 0; rxDrops := 0; txDrops := 0;
     time := t; lastSeen := t |}.

Definition storeOf (seen : nat → Z) (n : nat) : gmap string Stats :=
  list_to_map ((λ i, (ifname i, sampleAt (seen i))) <$> seq 0 n).

(** 1001 interfaces seen at pairwise distinct times ... *)
Definition rampStore : gmap string Stats := storeOf (λ i, Z.of_nat i + 1) 1001.

(** ... and 1001 interfaces of which eth0 and eth1 were last seen at the
    same time, before all others. *)
Definition tieStore : gmap string Stats := storeOf (λ i, Z.max 1 (Z.of_nat i)) 1001.

(** Two orders in which [range] may yield the keys of [tieStore]. *)
Definition tieOrder1 : list string := ifname <$> seq 0 1001.
Definition tieOrder2 : list string :=
  ifname 1 :: ifname 0 :: (ifname <$> seq 2 999).

(** A state in which eth0 was sampled at second 1 with a receive counter 616
    bytes short of 2^64. *)
Definition lineNearWrap : string :=
  "  eth0: 18446744073709551000 10 0 0 0 0 0 0 500 5 0 0 0 0 0 0".
Definition stateW : State :=
  stateOf (processLine (worldUp 1000000000) lineNearWrap emptyState).

(** ** Vocabulary of the further properties *)




(** Both timestamps of every stored sample agree. *)
Definition timesAgree (stats : gmap string Stats) : Prop :=
  map_Forall (λ _ st, time st = lastSeen st) stats.

(** Every clock reading taken during the turns is one of a running
    process. *)
Definition clocksOK (turns : list Turn) : Prop :=
  Forall (λ t, match opened t with
               | OpenError _ => True
               | Opened lines => Forall (λ wl, clockReading (Now wl.1)) lines
               end) turns.

(** ** The /metrics handler of [main] *)

(** What the handler answers: [http.Error(w, "Access denied", 403)], or the
    registry handed to [promhttp.HandlerFor] to be rendered. *)
Inductive Response :=
  | Forbidden (body : string)
  | Metrics (registry : gmap GaugeKey Q).

(** The handler registered for "/metrics"; [remoteAddr] is
    [r.RemoteAddr]. *)
Definition metricsHandler `{GoText} (allowedIPs remoteAddr : string)
    (registry : gmap GaugeKey Q) : Response :=
  if negb (isIPAllowed allowedIPs remoteAddr)
  then Forbidden "Access denied"
  else Metrics registry.

(** * Theorems *)

(** ** The ASCII text functions *)

Lemma parseDigits_nonneg tok : ∀ acc v,
  0 ≤ acc → parseDigits acc tok = Some v → 0 ≤ v.
Proof.
  induction tok as [|a r IH]; simpl; intros acc v Hacc H.
  - by simplify_eq.
  - destruct (isDigit a) eqn:Hd; [|done].
    eapply IH; [|exact H].
    unfold isDigit in Hd. apply andb_true_iff in Hd as [H1 _].
    apply Nat.leb_le in H1. lia.
Qed.

Lemma Sscanf_d_ascii_uint64 s v : Sscanf_d_ascii s = Some v → uint64 v.
Proof.
  unfold Sscanf_d_ascii. destruct (skipSpace s) as [s'|]; [|done].
  destruct (scanNumber s') as [|a tok]; [done|].
  destruct (parseDigits 0 (a :: tok)) as [n|] eqn:Hp; [|done].
  destruct (n <? 2 ^ 64) eqn:Hlt; [|done].
  intros [= <-]. apply Z.ltb_lt in Hlt.
  split; [|done]. by eapply parseDigits_nonneg; [|exact Hp].
Qed.


#[export] Instance ascii_text_laws : GoTextLaws.
Proof. constructor. apply Sscanf_d_ascii_uint64. Qed.

(** ** Time *)

Lemma Sub_exact t u : clockReading t → clockReading u → Sub t u = t - u.
Proof.
  unfold clockReading, Sub, wrapInt64. intros Ht Hu.
  rewrite Z.mod_small by lia.
  replace (t - u + 2 ^ 63 - 2 ^ 63) with (t - u) by lia.
  destruct (t - u <? 0) eqn:E1, (u <? t) eqn:E2, (0 <? t - u) eqn:E3,
    (t <? u) eqn:E4; simpl; try reflexivity; lia.
Qed.

Lemma Seconds_exact d : (Seconds d == inject_Z d / inject_Z Second)%Q.
Proof.
  unfold Seconds.
  rewrite (Z.quot_rem' d Second) at 3.
  rewrite inject_Z_plus, inject_Z_mult.
  change (inject_Z 1000000000) with (inject_Z Second).
  field. discriminate.
Qed.

Lemma Seconds_pos d : (0 < Seconds d)%Q ↔ 0 < d.
Proof.
  rewrite Seconds_exact. unfold Qlt, Qdiv, Qmult, Qinv, inject_Z, Second. simpl.
  lia.
Qed.

(** ** The state record *)

Lemma State_eq (s1 s2 : State) :
  prevStats s1 = prevStats s2 → gauges s1 = gauges s2 →
  published s1 = published s2 → currentInterfaces s1 = currentInterfaces s2 →
  s1 = s2.
Proof. destruct s1, s2; cbn; by intros -> -> -> ->. Qed.

Lemma prevStats_setValue vec l1 l2 v s :
  prevStats (setValue vec l1 l2 v s) = prevStats s.
Proof. reflexivity. Qed.
Lemma currentInterfaces_setValue vec l1 l2 v s :
  currentInterfaces (setValue vec l1 l2 v s) = currentInterfaces s.
Proof. reflexivity. Qed.
Lemma gauges_setValue vec l1 l2 v s :
  gauges (setValue vec l1 l2 v s) = <[(vec, (l1, l2)) := v]> (gauges s).
Proof. reflexivity. Qed.
Lemma published_setValue vec l1 l2 v s :
  published (setValue vec l1 l2 v s) = (published s ++ [((vec, (l1, l2)), v)])%list.
Proof. reflexivity. Qed.
Lemma prevStats_storeStats name st s :
  prevStats (storeStats name st s) = <[name := st]> (prevStats s).
Proof. reflexivity. Qed.
Lemma gauges_storeStats name st s : gauges (storeStats name st s) = gauges s.
Proof. reflexivity. Qed.
Lemma published_storeStats name st s : published (storeStats name st s) = published s.
Proof. reflexivity. Qed.
Lemma currentInterfaces_storeStats name st s :
  currentInterfaces (storeStats name st s) = currentInterfaces s.
Proof. reflexivity. Qed.
Lemma prevStats_markCurrent name s : prevStats (markCurrent name s) = prevStats s.
Proof. reflexivity. Qed.
Lemma gauges_markCurrent name s : gauges (markCurrent name s) = gauges s.
Proof. reflexivity. Qed.
Lemma published_markCurrent name s : published (markCurrent name s) = published s.
Proof. reflexivity. Qed.
Lemma currentInterfaces_markCurrent name s :
  currentInterfaces (markCurrent name s) = {[name]} ∪ currentInterfaces s.
Proof. reflexivity. Qed.

Ltac state_simpl :=
  repeat first
    [ rewrite prevStats_setValue | rewrite currentInterfaces_setValue
    | rewrite gauges_setValue | rewrite published_setValue
    | rewrite prevStats_storeStats | rewrite gauges_storeStats
    | rewrite published_storeStats | rewrite currentInterfaces_storeStats
    | rewrite prevStats_markCurrent | rewrite gauges_markCurrent
    | rewrite published_markCurrent | rewrite currentInterfaces_markCurrent ].

(** ** [With] and its panic *)

Lemma GaugeSet_valid vec l1 l2 v s :
  ValidString l1 = true → ValidString l2 = true →
  GaugeSet vec l1 l2 v s = Continue (setValue vec l1 l2 v s).
Proof. intros H1 H2. unfold GaugeSet. by rewrite H1, H2. Qed.

Lemma GaugeSet_invalid vec l1 l2 v s :
  ValidString l1 && ValidString l2 = false →
  GaugeSet vec l1 l2 v s = Panicked s.
Proof. intros Hv. unfold GaugeSet. by rewrite Hv. Qed.

Lemma andThen_Continue s k : andThen (Continue s) k = k s.
Proof. reflexivity. Qed.

Lemma andThen_Panicked s k : andThen (Panicked s) k = Panicked s.
Proof. reflexivity. Qed.

(** ** What [processLine] does to a line *)

Section line_facts.
Context `{GoText}.

Lemma live_flags w name flags :
  InterfaceByName w name = Some flags →
  live w name ↔
  negb (Z.land flags FlagLoopback =? 0) || (Z.land flags FlagUp =? 0) = false.
Proof.
  intros Hf. unfold live. rewrite orb_false_iff, negb_false_iff.
  split.
  - intros (f & Hf' & H1 & H2). rewrite Hf in Hf'. simplify_eq.
    split; [by apply Z.eqb_eq | by apply Z.eqb_neq].
  - intros [H1 H2]. exists flags. split; [done|].
    split; [by apply Z.eqb_eq | by apply Z.eqb_neq].
Qed.

Lemma processLine_short w line s :
  ¬ enoughFields line → processLine w line s = Continue s.
Proof.
  unfold enoughFields, processLine. intros Hn.
  destruct (length (Fields line) <? 17)%nat eqn:E; [done|].
  apply Nat.ltb_ge in E. lia.
Qed.

Lemma processLine_skipped w line s :
  enoughFields line → ¬ live w (ifaceNameOf line) →
  processLine w line s = Continue (markCurrent (ifaceNameOf line) s).
Proof.
  unfold enoughFields, processLine. intros Hn Hl.
  destruct (length (Fields line) <? 17)%nat eqn:E; [apply Nat.ltb_lt in E; lia|].
  fold (ifaceNameOf line).
  destruct (InterfaceByName w (ifaceNameOf line)) as [flags|] eqn:Hf; [|done].
  destruct (negb _ || _) eqn:Hc; [done|].
  destruct Hl. by eapply live_flags.
Qed.

(** The line up to its first [With]. *)
Lemma processLine_live w line s :
  enoughFields line → live w (ifaceNameOf line) →
  ∃ k, processLine w line s =
         andThen (GaugeSet networkInterfaceInfo (ifaceNameOf line)
                    (descriptionOf w line) (inject_Z 1)
                    (markCurrent (ifaceNameOf line) s)) k
       ∧ ∀ s1, k s1 =
           andThen
             match prevStats s1 !! ifaceNameOf line with
             | Some prev =>
                 if Qlt_le_dec 0 (Seconds (Sub (Now w) (time prev))) then
                   let cur := readingOf w line in
                   let name := ifaceNameOf line in
                   let timeDiff := Seconds (Sub (Now w) (time prev)) in
                   do s <- GaugeSet networkSpeedBits name "receive"
                             (inject_Z (subUint64 (rxBytes cur) (rxBytes prev))
                              * bytesToBits / timeDiff)%Q s1;
                   do s <- GaugeSet networkSpeedBits name "transmit"
                             (inject_Z (subUint64 (txBytes cur) (txBytes prev))
                              * bytesToBits / timeDiff)%Q s;
                   do s <- GaugeSet networkErrors name "receive"
                             (inject_Z (rxErrors cur)) s;
                   do s <- GaugeSet networkErrors name "transmit"
                             (inject_Z (txErrors cur)) s;
                   do s <- GaugeSet networkDrops name "receive"
                             (inject_Z (rxDrops cur)) s;
                   do s <- GaugeSet networkDrops name "transmit"
                             (inject_Z (txDrops cur)) s;
                   do s <- GaugeSet networkPackets name "receive"
                             (inject_Z (rxPackets cur)) s;
                   GaugeSet networkPackets name "transmit"
                     (inject_Z (txPackets cur)) s
                 else Continue s1
             | None => Continue s1
             end
             (λ s, Continue (storeStats (ifaceNameOf line) (readingOf w line) s)).
Proof.
  unfold enoughFields, processLine. intros Hn Hl.
  destruct (length (Fields line) <? 17)%nat eqn:E; [apply Nat.ltb_lt in E; lia|].
  fold (ifaceNameOf line).
  destruct Hl as (flags & Hf & H1 & H2). rewrite Hf.
  assert (negb (Z.land flags FlagLoopback =? 0) || (Z.land flags FlagUp =? 0) = false) as ->.
  { apply orb_false_iff. split; [apply negb_false_iff; by apply Z.eqb_eq | by apply Z.eqb_neq]. }
  fold (descriptionOf w line). eexists. split; [reflexivity|].
  intros s1. reflexivity.
Qed.

(** A label that is not valid UTF-8: the first [With] panics, before
    anything is written or stored. *)
Lemma processLine_panics w line s :
  enoughFields line → live w (ifaceNameOf line) → labelsValid w line = false →
  processLine w line s = Panicked (markCurrent (ifaceNameOf line) s).
Proof.
  intros Hn Hl Hv. destruct (processLine_live w line s Hn Hl) as (k & -> & _).
  by rewrite GaugeSet_invalid.
Qed.

Lemma processLine_sampled w line s :
  enoughFields line → live w (ifaceNameOf line) → labelsValid w line = true →
  processLine w line s =
    Continue
      {| prevStats := <[ifaceNameOf line := readingOf w line]> (prevStats s);
         gauges := applyWrites (writesOf w line (prevStats s)) (gauges s);
         published := (published s ++ writesOf w line (prevStats s))%list;
         currentInterfaces := {[ifaceNameOf line]} ∪ currentInterfaces s |}.
Proof.
  intros Hn Hl Hv. apply andb_true_iff in Hv as [Hname Hdesc].
  destruct (processLine_live w line s Hn Hl) as (k & -> & Hk).
  rewrite GaugeSet_valid, andThen_Continue, Hk by done.
  state_simpl. unfold writesOf.
  destruct (prevStats s !! ifaceNameOf line) as [prev|] eqn:Hp;
    [destruct (Qlt_le_dec 0 (Seconds (Sub (Now w) (time prev))))|].
  - cbv zeta.
    repeat (rewrite GaugeSet_valid by done; rewrite andThen_Continue; cbv beta).
    f_equal. apply State_eq; state_simpl; try reflexivity.
    all: cbn [app]; by rewrite <- ?app_assoc.
  - by rewrite andThen_Continue.
  - by rewrite andThen_Continue.
Qed.
End line_facts.
Lemma Sub_pos t u :
  clockReading t → clockReading u → 0 < Sub t u ↔ u < t.
Proof. intros Ht Hu. rewrite Sub_exact by done. lia. Qed.

Lemma subUint64_exact a b : uint64 a → uint64 b → b ≤ a → subUint64 a b = a - b.
Proof. unfold uint64, subUint64. intros. apply Z.mod_small. lia. Qed.

Lemma subUint64_wrapped a b :
  uint64 a → uint64 b → a < b → subUint64 a b = a - b + 2 ^ 64.
Proof.
  unfold uint64, subUint64. intros.
  rewrite <- (Z.mod_small (a - b + 2 ^ 64) (2 ^ 64)) by lia.
  replace (a - b + 2 ^ 64) with (a - b + 1 * 2 ^ 64) by lia.
  by rewrite Z.mod_add.
Qed.

Lemma applyWrites_app ws1 ws2 g :
  applyWrites (ws1 ++ ws2)%list g = applyWrites ws2 (applyWrites ws1 g).
Proof. apply foldl_app. Qed.

Lemma applyWrites_cons k v ws g :
  applyWrites ((k, v) :: ws) g = applyWrites ws (<[k := v]> g).
Proof. reflexivity. Qed.

Lemma applyWrites_lookup_notin ws g k :
  k ∉ ws.*1 → applyWrites ws g !! k = g !! k.
Proof.
  revert g. induction ws as [|[k' v'] ws IH]; intros g Hk; [done|].
  rewrite fmap_cons, not_elem_of_cons in Hk. destruct Hk as [Hne Hk].
  rewrite applyWrites_cons, IH by done. by apply lookup_insert_ne.
Qed.

Lemma applyWrites_lookup_in ws g k v :
  NoDup ws.*1 → (k, v) ∈ ws → applyWrites ws g !! k = Some v.
Proof.
  revert g. induction ws as [|[k' v'] ws IH]; intros g Hnd Hin.
  - by apply elem_of_nil in Hin.
  - rewrite fmap_cons, NoDup_cons in Hnd. destruct Hnd as [Hk' Hnd].
    apply elem_of_cons in Hin as [Heq|Hin].
    + simplify_eq. rewrite applyWrites_cons, applyWrites_lookup_notin by done.
      apply lookup_insert_eq.
    + rewrite applyWrites_cons. by apply IH.
Qed.

Lemma NoDup_fst_functional {A B} (l : list (A * B)) k v1 v2 :
  NoDup l.*1 → (k, v1) ∈ l → (k, v2) ∈ l → v1 = v2.
Proof.
  induction l as [|[k' v'] l IH]; intros Hnd H1 H2.
  - by apply elem_of_nil in H1.
  - rewrite fmap_cons, NoDup_cons in Hnd. destruct Hnd as [Hk Hnd].
    apply elem_of_cons in H1 as [E1|H1], H2 as [E2|H2]; simplify_eq.
    + done.
    + destruct Hk. by apply (list_elem_of_fmap_2 fst) in H2.
    + destruct Hk. by apply (list_elem_of_fmap_2 fst) in H1.
    + by apply IH.
Qed.

Section rate_facts.
Context `{GoTextLaws}.

Lemma scanCounter_uint64 field : uint64 (scanCounter field).
Proof.
  unfold scanCounter. destruct (Sscanf_d field) as [v|] eqn:E.
  - by eapply Sscanf_d_uint64.
  - unfold uint64. lia.
Qed.
End rate_facts.

Section published_facts.
Context `{GoText}.

Lemma publishedBy_sampled w line s :
  enoughFields line → live w (ifaceNameOf line) → labelsValid w line = true →
  publishedBy w line s = writesOf w line (prevStats s).
Proof.
  intros Hn Hl Hv. unfold publishedBy. rewrite processLine_sampled by done.
  cbn. by rewrite drop_app_length.
Qed.

Lemma publishedBy_panics w line s :
  enoughFields line → live w (ifaceNameOf line) → labelsValid w line = false →
  publishedBy w line s = [].
Proof.
  intros Hn Hl Hv. unfold publishedBy. rewrite processLine_panics by done.
  cbn. apply drop_all.
Qed.

Lemma rateWrites_keys name cur prev :
  (rateWrites name cur prev).*1 =
    [ (networkSpeedBits, (name, "receive")); (networkSpeedBits, (name, "transmit"));
      (networkErrors, (name, "receive")); (networkErrors, (name, "transmit"));
      (networkDrops, (name, "receive")); (networkDrops, (name, "transmit"));
      (networkPackets, (name, "receive")); (networkPackets, (name, "transmit")) ].
Proof. reflexivity. Qed.

Lemma writesOf_NoDup w line stats : NoDup (writesOf w line stats).*1.
Proof.
  unfold writesOf. rewrite fmap_cons.
  destruct (stats !! ifaceNameOf line) as [prev|];
    [destruct (Qlt_le_dec _ _)|]; try (apply NoDup_singleton).
  rewrite rateWrites_keys. cbn [fst].
  repeat (apply NoDup_cons; split;
          [intros Hin;
           repeat (apply elem_of_cons in Hin as [?|Hin]; [discriminate|]);
           by apply elem_of_nil in Hin|]).
  apply NoDup_nil_2.
Qed.

Lemma writesOf_rates w line stats prev :
  stats !! ifaceNameOf line = Some prev →
  clockReading (time prev) → clockReading (Now w) → time prev < Now w →
  writesOf w line stats =
    ((networkInterfaceInfo, (ifaceNameOf line, descriptionOf w line)), inject_Z 1)
    :: rateWrites (ifaceNameOf line) (readingOf w line) prev.
Proof.
  intros Hp Ht1 Ht2 Hlt. unfold writesOf. rewrite Hp.
  destruct (Qlt_le_dec _ _) as [|Hle]; [done|].
  exfalso. apply Qle_not_lt in Hle. apply Hle.
  by apply Seconds_pos, Sub_pos.
Qed.

Lemma writesOf_no_rates w line stats :
  clockReading (Now w) →
  (∀ prev, stats !! ifaceNameOf line = Some prev →
           clockReading (time prev) ∧ Now w ≤ time prev) →
  writesOf w line stats =
    [((networkInterfaceInfo, (ifaceNameOf line, descriptionOf w line)), inject_Z 1)].
Proof.
  intros Hw Hp. unfold writesOf.
  destruct (stats !! ifaceNameOf line) as [prev|]; [|done].
  destruct (Hp prev eq_refl) as [Ht Hle].
  destruct (Qlt_le_dec _ _) as [Hlt|]; [|done].
  apply (proj1 (Seconds_pos _)) in Hlt.
  apply (proj1 (Sub_pos _ _ Hw Ht)) in Hlt. lia.
Qed.
End published_facts.

(** ** Rates *)

Section rates.
Context `{GoTextLaws}.

(** The two throughput gauges written against a previous sample. *)
Lemma speed_gauges_sampled w line s prev :
  enoughFields line → live w (ifaceNameOf line) → labelsValid w line = true →
  prevStats s !! ifaceNameOf line = Some prev →
  clockReading (time prev) → clockReading (Now w) → time prev < Now w →
  let name := ifaceNameOf line in
  let cur := readingOf w line in
  let timeDiff := Seconds (Sub (Now w) (time prev)) in
  let rx := (inject_Z (subUint64 (rxBytes cur) (rxBytes prev)) * inject_Z 8 / timeDiff)%Q in
  let tx := (inject_Z (subUint64 (txBytes cur) (txBytes prev)) * inject_Z 8 / timeDiff)%Q in
  (∀ v, ((networkSpeedBits, (name, "receive")), v) ∈ publishedBy w line s ↔ v = rx)
  ∧ gauges (stateOf (processLine w line s))
      !! (networkSpeedBits, (name, "receive")) = Some rx
  ∧ (∀ v, ((networkSpeedBits, (name, "transmit")), v) ∈ publishedBy w line s ↔ v = tx)
  ∧ gauges (stateOf (processLine w line s))
      !! (networkSpeedBits, (name, "transmit")) = Some tx.
Proof.
  intros Hn Hl Hlab Hp Ht1 Ht2 Hlt name cur timeDiff rx tx.
  pose proof (writesOf_NoDup w line (prevStats s)) as Hnd.
  rewrite publishedBy_sampled, processLine_sampled by done. cbn [stateOf gauges].
  assert (((networkSpeedBits, (name, "receive")), rx) ∈ writesOf w line (prevStats s)) as Hrx.
  { rewrite (writesOf_rates _ _ _ prev) by done. set_solver. }
  assert (((networkSpeedBits, (name, "transmit")), tx) ∈ writesOf w line (prevStats s)) as Htx.
  { rewrite (writesOf_rates _ _ _ prev) by done. set_solver. }
  split_and!.
  - intros v. split; [|by intros ->].
    intros Hv. by eapply (NoDup_fst_functional _ _ _ _ Hnd).
  - by apply applyWrites_lookup_in.
  - intros v. split; [|by intros ->].
    intros Hv. by eapply (NoDup_fst_functional _ _ _ _ Hnd).
  - by apply applyWrites_lookup_in.
Qed.

(** C1. For an interface with a stored previous sample [prev] taken at
    [time prev] and a current reading [cur] taken at a later time [Now w],
    with a receive counter that did not decrease: every value written to
    the receive-rate gauge for that line is
    [(rxBytes cur - rxBytes prev) * 8 / elapsed seconds], the elapsed
    seconds being [(Now w - time prev) / 1e9]; when the interface name and
    description are valid UTF-8 this value is written and is the value the
    gauge holds afterwards, and otherwise [With] panics on the
    interface-info gauge and no rate is written. Symmetrically for the
    transmit-rate gauge and the transmit counter. *)
Theorem rate_is_delta_over_elapsed w line s prev :
  enoughFields line → live w (ifaceNameOf line) →
  prevStats s !! ifaceNameOf line = Some prev →
  uint64 (rxBytes prev) → uint64 (txBytes prev) →
  clockReading (time prev) → clockReading (Now w) →
  time prev < Now w →
  let name := ifaceNameOf line in
  let cur := readingOf w line in
  let elapsed := Seconds (Now w - time prev) in
  (rxBytes prev ≤ rxBytes cur →
     let v := (inject_Z (rxBytes cur - rxBytes prev) * inject_Z 8 / elapsed)%Q in
     (∀ v', ((networkSpeedBits, (name, "receive")), v') ∈ publishedBy w line s →
            v' = v)
     ∧ (labelsValid w line = true →
        ((networkSpeedBits, (name, "receive")), v) ∈ publishedBy w line s
        ∧ gauges (stateOf (processLine w line s))
            !! (networkSpeedBits, (name, "receive")) = Some v))
  ∧ (txBytes prev ≤ txBytes cur →
     let v := (inject_Z (txBytes cur - txBytes prev) * inject_Z 8 / elapsed)%Q in
     (∀ v', ((networkSpeedBits, (name, "transmit")), v') ∈ publishedBy w line s →
            v' = v)
     ∧ (labelsValid w line = true →
        ((networkSpeedBits, (name, "transmit")), v) ∈ publishedBy w line s
        ∧ gauges (stateOf (processLine w line s))
            !! (networkSpeedBits, (name, "transmit")) = Some v))
  ∧ (labelsValid w line = false →
     processLine w line s = Panicked (markCurrent name s)
     ∧ publishedBy w line s = [])
  ∧ (elapsed == inject_Z (Now w - time prev) / inject_Z 1000000000)%Q.
Proof.
  intros Hn Hl Hp Hrx Htx Ht1 Ht2 Hlt name cur elapsed.
  assert (labelsValid w line = false → publishedBy w line s = []) as Hnone
    by (intros; by apply publishedBy_panics).
  split_and!.
  - intros Hle v. destruct (labelsValid w line) eqn:Hv.
    + destruct (speed_gauges_sampled w line s prev Hn Hl Hv Hp Ht1 Ht2 Hlt)
        as (R1 & R2 & _).
      rewrite Sub_exact in R1, R2 by done.
      rewrite (subUint64_exact (rxBytes (readingOf w line)) (rxBytes prev)) in R1, R2 by first [done | apply scanCounter_uint64].
      split; [intros v' Hv'; by apply R1|]. intros _. split; [by apply R1|done].
    + split; [|done]. intros v' Hv'. rewrite Hnone in Hv' by done.
      by apply elem_of_nil in Hv'.
  - intros Hle v. destruct (labelsValid w line) eqn:Hv.
    + destruct (speed_gauges_sampled w line s prev Hn Hl Hv Hp Ht1 Ht2 Hlt)
        as (_ & _ & T1 & T2).
      rewrite Sub_exact in T1, T2 by done.
      rewrite (subUint64_exact (txBytes (readingOf w line)) (txBytes prev)) in T1, T2 by first [done | apply scanCounter_uint64].
      split; [intros v' Hv'; by apply T1|]. intros _. split; [by apply T1|done].
    + split; [|done]. intros v' Hv'. rewrite Hnone in Hv' by done.
      by apply elem_of_nil in Hv'.
  - intros Hv. split; [by apply processLine_panics|by apply Hnone].
  - apply Seconds_exact.
Qed.
End rates.

Lemma enoughFields_lineB : enoughFields lineB.
Proof. unfold enoughFields. vm_compute. lia. Qed.

Lemma live_worldUp now name : live (worldUp now) name.
Proof. exists 3. by vm_compute. Qed.

Lemma labelsValid_worldUp now : labelsValid (worldUp now) lineB = true.
Proof. reflexivity. Qed.

Lemma rate_is_delta_over_elapsed_witness :
  gauges (stateOf (processLine (worldUp 2000000000) lineB stateA))
    !! (networkSpeedBits, ("eth0", "receive"))
  = Some (inject_Z (2000 - 1000) * inject_Z 8 / Seconds (2000000000 - 1000000000))%Q.
Proof.
  pose proof (rate_is_delta_over_elapsed (worldUp 2000000000) lineB stateA
    {| rxBytes := 1000; txBytes := 500; rxPackets := 10; txPackets := 5;
       rxErrors := 0; txErrors := 0; rxDrops := 0; txDrops := 0;
       time := 1000000000; lastSeen := 1000000000 |}
    enoughFields_lineB (live_worldUp _ _) eq_refl) as Hw.
  cbn [rxBytes txBytes time Now worldUp] in Hw.
  destruct Hw as (Hrx & _); try (unfold uint64, clockReading; lia).
  apply Hrx; [vm_compute; discriminate|apply labelsValid_worldUp].
Defined.

Section wrapped_rates.
Context `{GoTextLaws}.

(** C2 (amended). When a cumulative byte counter is strictly smaller than
    the stored previous value and the elapsed time is strictly positive,
    every value written to the throughput gauge of that direction is the
    rate computed from the 64-bit wrap-around difference
    [current - previous + 2^64], times 8, over the elapsed seconds: a
    strictly positive value, written as computed, with no clamping to
    zero. It is written, and is the value the gauge holds afterwards, when
    the interface name and description are valid UTF-8; otherwise [With]
    panics on the interface-info gauge and no rate is written. *)
Theorem decreased_counter_wraps_around w line s prev :
  enoughFields line → live w (ifaceNameOf line) →
  prevStats s !! ifaceNameOf line = Some prev →
  uint64 (rxBytes prev) → uint64 (txBytes prev) →
  clockReading (time prev) → clockReading (Now w) →
  time prev < Now w →
  let name := ifaceNameOf line in
  let cur := readingOf w line in
  let elapsed := Seconds (Now w - time prev) in
  (rxBytes cur < rxBytes prev →
     let v := (inject_Z (rxBytes cur - rxBytes prev + 2 ^ 64) * inject_Z 8 / elapsed)%Q in
     (∀ v', ((networkSpeedBits, (name, "receive")), v') ∈ publishedBy w line s →
            v' = v)
     ∧ (labelsValid w line = true →
        ((networkSpeedBits, (name, "receive")), v) ∈ publishedBy w line s
        ∧ gauges (stateOf (processLine w line s))
            !! (networkSpeedBits, (name, "receive")) = Some v)
     ∧ (0 < v)%Q)
  ∧ (txBytes cur < txBytes prev →
     let v := (inject_Z (txBytes cur - txBytes prev + 2 ^ 64) * inject_Z 8 / elapsed)%Q in
     (∀ v', ((networkSpeedBits, (name, "transmit")), v') ∈ publishedBy w line s →
            v' = v)
     ∧ (labelsValid w line = true →
        ((networkSpeedBits, (name, "transmit")), v) ∈ publishedBy w line s
        ∧ gauges (stateOf (processLine w line s))
            !! (networkSpeedBits, (name, "transmit")) = Some v)
     ∧ (0 < v)%Q)
  ∧ (labelsValid w line = false →
     processLine w line s = Panicked (markCurrent name s)
     ∧ publishedBy w line s = []).
Proof.
  intros Hn Hl Hp Hrx Htx Ht1 Ht2 Hlt name cur elapsed.
  assert (labelsValid w line = false → publishedBy w line s = []) as Hnone
    by (intros; by apply publishedBy_panics).
  assert (0 < elapsed)%Q as He by (apply Seconds_pos; lia).
  assert (∀ a b, uint64 a → uint64 b → a < b →
            (0 < inject_Z (a - b + 2 ^ 64) * inject_Z 8 / elapsed)%Q) as Hpos.
  { intros a b Ha Hb Hab. apply Qlt_shift_div_l; [done|].
    rewrite Qmult_0_l. rewrite <- inject_Z_mult.
    change 0%Q with (inject_Z 0). rewrite <- Zlt_Qlt.
    unfold uint64 in *. lia. }
  split_and!.
  - intros Hdec v. split_and!; [| |apply Hpos; [apply scanCounter_uint64|done..]].
    + intros v' Hv'. destruct (labelsValid w line) eqn:Hv.
      * destruct (speed_gauges_sampled w line s prev Hn Hl Hv Hp Ht1 Ht2 Hlt)
          as (R1 & _).
        rewrite Sub_exact in R1 by done.
        rewrite (subUint64_wrapped (rxBytes (readingOf w line)) (rxBytes prev)) in R1 by first [done | apply scanCounter_uint64].
        by apply R1.
      * rewrite Hnone in Hv' by done. by apply elem_of_nil in Hv'.
    + intros Hv.
      destruct (speed_gauges_sampled w line s prev Hn Hl Hv Hp Ht1 Ht2 Hlt)
        as (R1 & R2 & _).
      rewrite Sub_exact in R1, R2 by done.
      rewrite (subUint64_wrapped (rxBytes (readingOf w line)) (rxBytes prev)) in R1, R2 by first [done | apply scanCounter_uint64].
      split; [by apply R1|done].
  - intros Hdec v. split_and!; [| |apply Hpos; [apply scanCounter_uint64|done..]].
    + intros v' Hv'. destruct (labelsValid w line) eqn:Hv.
      * destruct (speed_gauges_sampled w line s prev Hn Hl Hv Hp Ht1 Ht2 Hlt)
          as (_ & _ & T1 & _).
        rewrite Sub_exact in T1 by done.
        rewrite (subUint64_wrapped (txBytes (readingOf w line)) (txBytes prev)) in T1 by first [done | apply scanCounter_uint64].
        by apply T1.
      * rewrite Hnone in Hv' by done. by apply elem_of_nil in Hv'.
    + intros Hv.
      destruct (speed_gauges_sampled w line s prev Hn Hl Hv Hp Ht1 Ht2 Hlt)
        as (_ & _ & T1 & T2).
      rewrite Sub_exact in T1, T2 by done.
      rewrite (subUint64_wrapped (txBytes (readingOf w line)) (txBytes prev)) in T1, T2 by first [done | apply scanCounter_uint64].
      split; [by apply T1|done].
  - intros Hv. split; [by apply processLine_panics|by apply Hnone].
Qed.
End wrapped_rates.

Lemma enoughFields_lineReset : enoughFields lineReset.
Proof. unfold enoughFields. vm_compute. lia. Qed.

Lemma decreased_counter_wraps_around_witness :
  gauges (stateOf (processLine (worldUp 3000000000) lineReset stateB))
    !! (networkSpeedBits, ("eth0", "receive"))
  = Some (inject_Z (500 - 2000 + 2 ^ 64) * inject_Z 8
          / Seconds (3000000000 - 2000000000))%Q.
Proof.
  pose proof (decreased_counter_wraps_around (worldUp 3000000000) lineReset stateB
    {| rxBytes := 2000; txBytes := 1500; rxPackets := 20; txPackets := 15;
       rxErrors := 1; txErrors := 3; rxDrops := 2; txDrops := 4;
       time := 2000000000; lastSeen := 2000000000 |}
    enoughFields_lineReset (live_worldUp _ _) eq_refl) as Hw.
  cbn [rxBytes txBytes time Now worldUp] in Hw.
  destruct Hw as (Hrx & _); try (unfold uint64, clockReading; lia).
  apply Hrx; [vm_compute; reflexivity|reflexivity].
Defined.

(** C2, as stated, fails: eth0 was read with 2000 received bytes at second
    2 and is read with 500 at second 3. The claimed gauge value is the
    negative rate (500 - 2000) * 8 / 1 = -12000; the value written is
    (500 - 2000 + 2^64) * 8 / 1, which is positive. *)
Lemma negative_rate_counterexample :
  let w := worldUp 3000000000 in
  let cur := readingOf w lineReset in
  ∃ prev v,
    prevStats stateB !! ifaceNameOf lineReset = Some prev
    ∧ rxBytes cur < rxBytes prev ∧ time prev < Now w
    ∧ labelsValid w lineReset = true
    ∧ gauges (stateOf (processLine w lineReset stateB))
        !! (networkSpeedBits, (ifaceNameOf lineReset, "receive")) = Some v
    ∧ ¬ (v == inject_Z (rxBytes cur - rxBytes prev) * inject_Z 8
              / Seconds (Now w - time prev))%Q
    ∧ (0 < v)%Q.
Proof.
  eexists _, _. split; [vm_compute; reflexivity|].
  split; [vm_compute; reflexivity|]. split; [vm_compute; reflexivity|].
  split; [vm_compute; reflexivity|]. split; [vm_compute; reflexivity|].
  split; [vm_compute; discriminate | vm_compute; reflexivity].
Qed.

(** ** Skipped publication, skipped lines, unparsable counters *)

Section lines.
Context `{GoText}.

Lemma processLine_stores w line s :
  enoughFields line → live w (ifaceNameOf line) → labelsValid w line = true →
  prevStats (stateOf (processLine w line s)) !! ifaceNameOf line
  = Some (readingOf w line).
Proof.
  intros Hn Hl Hv. rewrite processLine_sampled by done. cbn [stateOf prevStats].
  apply lookup_insert_eq.
Qed.

(** C4. When the previous sample of an interface is not older than the
    current reading (in particular when both carry the same timestamp), no
    rate gauge and no error, drop or packet gauge is written or changed
    for the line, so the division by the elapsed time, which only occurs
    in the value of a rate gauge, is not performed. When the interface
    name and description are valid UTF-8 the interface-info gauge is the
    only gauge written and the current reading is stored as the new
    sample; when they are not, [With] panics on the interface-info gauge
    and nothing is written or stored. *)
Theorem no_gauge_without_elapsed_time w line s prev :
  enoughFields line → live w (ifaceNameOf line) →
  prevStats s !! ifaceNameOf line = Some prev →
  clockReading (time prev) → clockReading (Now w) →
  Now w ≤ time prev →
  let s' := stateOf (processLine w line s) in
  (∀ k v, isRateGauge k → (k, v) ∉ publishedBy w line s)
  ∧ (∀ k, isRateGauge k → gauges s' !! k = gauges s !! k)
  ∧ (labelsValid w line = true →
     publishedBy w line s =
       [((networkInterfaceInfo, (ifaceNameOf line, descriptionOf w line)), inject_Z 1)]
     ∧ prevStats s' !! ifaceNameOf line = Some (readingOf w line)
     ∧ time (readingOf w line) = Now w)
  ∧ (labelsValid w line = false →
     processLine w line s = Panicked (markCurrent (ifaceNameOf line) s)
     ∧ publishedBy w line s = []
     ∧ prevStats s' = prevStats s).
Proof.
  intros Hn Hl Hp Ht1 Ht2 Hle s'.
  assert (writesOf w line (prevStats s) =
    [((networkInterfaceInfo, (ifaceNameOf line, descriptionOf w line)), inject_Z 1)])
    as Hw.
  { apply writesOf_no_rates; [done|]. intros p Hp'. by simplify_eq. }
  destruct (labelsValid w line) eqn:Hv.
  - rewrite publishedBy_sampled by done. rewrite Hw.
    split_and!.
    + intros k v Hk Hin. apply list_elem_of_singleton in Hin. simplify_eq.
      by apply Hk.
    + intros k Hk. subst s'. rewrite processLine_sampled by done.
      cbn [stateOf gauges]. rewrite Hw. apply applyWrites_lookup_notin.
      cbn. intros Hin. apply list_elem_of_singleton in Hin. subst k. by apply Hk.
    + intros _. split_and!; [done|by apply processLine_stores|done].
    + done.
  - subst s'. rewrite publishedBy_panics, processLine_panics by done.
    split_and!; [|done|done|done].
    intros k v _ Hin. by apply elem_of_nil in Hin.
Qed.

(** C5 (amended). For a line with enough fields: when the interface
    resolves, is up and is no loopback, and its name and description are
    valid UTF-8, the stored sample's [lastSeen] (and [time]) is the time of
    the read; when the line is skipped (loopback, administratively down,
    or failed lookup) the sample store is left as it was, and only the
    loop-local [currentInterfaces] records the name; and when [With]
    panics on a label that is not valid UTF-8 the store is left as it was
    too. *)
Theorem lastSeen_updated_only_when_sampled w line s :
  enoughFields line →
  let name := ifaceNameOf line in
  let s' := stateOf (processLine w line s) in
  (live w name → labelsValid w line = true →
     ∃ st, prevStats s' !! name = Some st ∧ lastSeen st = Now w ∧ time st = Now w)
  ∧ (¬ live w name →
     processLine w line s = Continue s'
     ∧ prevStats s' = prevStats s ∧ name ∈ currentInterfaces s')
  ∧ (live w name → labelsValid w line = false →
     processLine w line s = Panicked s' ∧ prevStats s' = prevStats s).
Proof.
  intros Hn name s'. split_and!.
  - intros Hl Hv. exists (readingOf w line). split; [|done].
    by apply processLine_stores.
  - intros Hl. subst s'. rewrite processLine_skipped by done.
    split_and!; [done..|]. cbn. set_solver.
  - intros Hl Hv. subst s'. by rewrite processLine_panics.
Qed.

(** The interface-info gauge is the first gauge written for a line that is
    not skipped and whose labels are valid, whatever the sample store
    holds. *)
Lemma info_gauge_first w line s :
  enoughFields line → live w (ifaceNameOf line) → labelsValid w line = true →
  let key := (networkInterfaceInfo, (ifaceNameOf line, descriptionOf w line)) in
  (∃ rest, publishedBy w line s = (key, inject_Z 1) :: rest)
  ∧ gauges (stateOf (processLine w line s)) !! key = Some (inject_Z 1).
Proof.
  intros Hn Hl Hv key. rewrite publishedBy_sampled, processLine_sampled by done.
  split; [by eexists|]. cbn [stateOf gauges].
  apply applyWrites_lookup_in; [apply writesOf_NoDup|]. apply list_elem_of_here.
Qed.
End lines.

Lemma enoughFields_lineA : enoughFields lineA.
Proof. unfold enoughFields. vm_compute. lia. Qed.

Lemma no_gauge_without_elapsed_time_witness :
  publishedBy (worldUp 1000000000) lineB stateA =
    [((networkInterfaceInfo, ("eth0", "Unknown")), inject_Z 1)].
Proof.
  pose proof (no_gauge_without_elapsed_time (worldUp 1000000000) lineB stateA
    {| rxBytes := 1000; txBytes := 500; rxPackets := 10; txPackets := 5;
       rxErrors := 0; txErrors := 0; rxDrops := 0; txDrops := 0;
       time := 1000000000; lastSeen := 1000000000 |}
    enoughFields_lineB (live_worldUp _ _) eq_refl) as Hw.
  cbn [time Now worldUp] in Hw.
  destruct Hw as (_ & _ & Hvalid & _); try (unfold clockReading; lia).
  by apply Hvalid.
Defined.

Lemma lastSeen_updated_only_when_sampled_witness :
  prevStats (stateOf (processLine (worldDown 2000000000) lineB stateA))
  = prevStats stateA.
Proof.
  refine (proj1 (proj2 (proj1 (proj2 (lastSeen_updated_only_when_sampled
    (worldDown 2000000000) lineB stateA enoughFields_lineB)) _))).
  intros (flags & Hf & _ & Hup). vm_compute in Hf. by simplify_eq.
Defined.

(** C5, as stated, fails: eth0 was sampled at second 1, and at second 2 its
    line is scanned while the interface is administratively down. The
    stored sample still carries [lastSeen] = second 1. *)
Lemma lastSeen_stale_when_skipped_counterexample :
  let w := worldDown 2000000000 in
  enoughFields lineB
  ∧ InterfaceByName w (ifaceNameOf lineB) = Some 2
  ∧ Z.land 2 FlagUp = 0
  ∧ ∃ s' st, processLine w lineB stateA = Continue s'
          ∧ prevStats s' !! ifaceNameOf lineB = Some st
          ∧ lastSeen st = 1000000000
          ∧ lastSeen st ≠ Now w.
Proof.
  split; [apply enoughFields_lineB|]. split; [reflexivity|]. split; [reflexivity|].
  eexists _, _. split; [vm_compute; reflexivity|].
  split; [vm_compute; reflexivity|]. split; [reflexivity|].
  vm_compute. discriminate.
Qed.

(** ** The interface-info gauge over a whole turn *)

Section turns.
Context `{GoText}.

(** The four ways a line ends. *)
Lemma processLine_cases w line s :
  processLine w line s = Continue s
  ∨ processLine w line s = Continue (markCurrent (ifaceNameOf line) s)
  ∨ (enoughFields line ∧ live w (ifaceNameOf line) ∧ labelsValid w line = false
     ∧ processLine w line s = Panicked (markCurrent (ifaceNameOf line) s))
  ∨ (enoughFields line ∧ live w (ifaceNameOf line) ∧ labelsValid w line = true).
Proof.
  destruct (decide (17 ≤ length (Fields line))%nat) as [Hn|Hn].
  - destruct (InterfaceByName w (ifaceNameOf line)) as [flags|] eqn:Hf.
    + destruct (negb (Z.land flags FlagLoopback =? 0) || (Z.land flags FlagUp =? 0))
        eqn:Hc.
      * right; left. apply processLine_skipped; [done|].
        rewrite (live_flags _ _ _ Hf). congruence.
      * assert (live w (ifaceNameOf line)) as Hl by by apply (live_flags _ _ _ Hf).
        destruct (labelsValid w line) eqn:Hv.
        -- right; right; right. done.
        -- right; right; left. split_and!; [done..|]. by apply processLine_panics.
    + right; left. apply processLine_skipped; [done|].
      intros (flags & Hf' & _). congruence.
  - left. by apply processLine_short.
Qed.


Lemma scanLines_cons w line lines s :
  scanLines ((w, line) :: lines) s
  = andThen (processLine w line s) (scanLines lines).
Proof. reflexivity. Qed.







End turns.




(** ** Counters that do not parse *)

Section garbled.
Context `{GoTextLaws}.

(** C9. For a line with at least 17 fields whose interface is not filtered
    out (and whose name and description are valid UTF-8, so that [With]
    does not panic), the line is processed and its sample stored; each
    counter whose field the scan rejects has the value 0 in that sample;
    and the next rate computed for the interface is computed against this
    sample: when the received-bytes (transmitted-bytes) field was
    rejected, the next receive (transmit) rate is the whole next counter,
    times 8, over the elapsed seconds. *)
Theorem unparsable_counter_is_zero w line s :
  enoughFields line → live w (ifaceNameOf line) → labelsValid w line = true →
  let name := ifaceNameOf line in
  let fields := Fields line in
  let stored := readingOf w line in
  let s' := stateOf (processLine w line s) in
  processLine w line s = Continue s'
  ∧ prevStats s' !! name = Some stored
  ∧ (Sscanf_d (fieldAt fields 1) = None → rxBytes stored = 0)
  ∧ (Sscanf_d (fieldAt fields 2) = None → rxPackets stored = 0)
  ∧ (Sscanf_d (fieldAt fields 3) = None → rxErrors stored = 0)
  ∧ (Sscanf_d (fieldAt fields 4) = None → rxDrops stored = 0)
  ∧ (Sscanf_d (fieldAt fields 9) = None → txBytes stored = 0)
  ∧ (Sscanf_d (fieldAt fields 10) = None → txPackets stored = 0)
  ∧ (Sscanf_d (fieldAt fields 11) = None → txErrors stored = 0)
  ∧ (Sscanf_d (fieldAt fields 12) = None → txDrops stored = 0)
  ∧ ∀ w2 line2,
      enoughFields line2 → ifaceNameOf line2 = name → live w2 name →
      labelsValid w2 line2 = true →
      clockReading (Now w) → clockReading (Now w2) → Now w < Now w2 →
      let next := readingOf w2 line2 in
      let elapsed := Seconds (Now w2 - Now w) in
      publishedBy w2 line2 s' =
        ((networkInterfaceInfo, (name, descriptionOf w2 line2)), inject_Z 1)
        :: rateWrites name next stored
      ∧ (Sscanf_d (fieldAt fields 1) = None →
         gauges (stateOf (processLine w2 line2 s'))
           !! (networkSpeedBits, (name, "receive"))
         = Some (inject_Z (rxBytes next) * inject_Z 8 / elapsed)%Q)
      ∧ (Sscanf_d (fieldAt fields 9) = None →
         gauges (stateOf (processLine w2 line2 s'))
           !! (networkSpeedBits, (name, "transmit"))
         = Some (inject_Z (txBytes next) * inject_Z 8 / elapsed)%Q).
Proof.
  intros Hn Hl Hv name fields stored s'.
  assert (processLine w line s = Continue s') as Hc
    by (subst s'; by rewrite processLine_sampled).
  assert (prevStats s' !! name = Some stored) as Hst by by apply processLine_stores.
  assert (∀ f, Sscanf_d f = None → scanCounter f = 0) as Hz.
  { intros f Hf. unfold scanCounter. by rewrite Hf. }
  split_and!; [done|done|by apply Hz..|].
  intros w2 line2 Hn2 Hname Hl2 Hv2 Ht1 Ht2 Hlt next elapsed.
  rewrite <- Hname in Hl2, Hst.
  destruct (speed_gauges_sampled w2 line2 s' stored Hn2 Hl2 Hv2 Hst Ht1 Ht2 Hlt)
    as (_ & R & _ & T).
  rewrite Sub_exact in R, T by done. rewrite Hname in R, T.
  split_and!.
  - rewrite publishedBy_sampled by done.
    rewrite (writesOf_rates _ _ _ stored) by done. by rewrite Hname.
  - intros Hf. rewrite R. subst stored fields. cbn [rxBytes readingOf] in *.
    rewrite (Hz _ Hf). unfold subUint64. rewrite Z.sub_0_r, Z.mod_small; [done|].
    apply scanCounter_uint64.
  - intros Hf. rewrite T. subst stored fields. cbn [txBytes readingOf] in *.
    rewrite (Hz _ Hf). unfold subUint64. rewrite Z.sub_0_r, Z.mod_small; [done|].
    apply scanCounter_uint64.
Qed.
End garbled.

Lemma enoughFields_lineGarbled : enoughFields lineGarbled.
Proof. unfold enoughFields. vm_compute. lia. Qed.

Lemma unparsable_counter_is_zero_witness :
  Sscanf_d (fieldAt (Fields lineGarbled) 9) = None
  ∧ prevStats (stateOf (processLine (worldUp 1000000000) lineGarbled emptyState))
      !! "eth0"
    = Some {| rxBytes := 12; txBytes := 0; rxPackets := 0; txPackets := 15;
              rxErrors := 1; txErrors := 3; rxDrops := 2; txDrops := 4;
              time := 1000000000; lastSeen := 1000000000 |}.
Proof.
  split; [reflexivity|].
  exact (proj1 (proj2 (unparsable_counter_is_zero (worldUp 1000000000) lineGarbled
    emptyState enoughFields_lineGarbled (live_worldUp _ _) eq_refl))).
Defined.

(** ** A turn in which /proc/net/dev cannot be opened *)

Section backoff.
Context `{GoText}.

(** C7. When /proc/net/dev cannot be opened, the turn returns normally: the
    state (sample store, gauge values, gauges written so far) is the state
    it started from, its only effects are the log line and a sleep of one
    second (1e9 ns), and the loop goes on with its next turn from that
    unchanged state. *)
Theorem open_failure_leaves_state t err s :
  opened t = OpenError err →
  iteration t s =
    (Continue s,
     [LogPrintf ("Error opening /proc/net/dev: " ++ err); Sleep 1000000000])
  ∧ ∀ rest,
      collectNetworkSpeeds (t :: rest) s =
        ((collectNetworkSpeeds rest s).1,
         (LogPrintf ("Error opening /proc/net/dev: " ++ err)
          :: Sleep 1000000000 :: (collectNetworkSpeeds rest s).2)).
Proof.
  intros Ho.
  assert (iteration t s =
    (Continue s,
     [LogPrintf ("Error opening /proc/net/dev: " ++ err); Sleep 1000000000]))
    as Hit by (unfold iteration; by rewrite Ho).
  split; [done|]. intros rest. cbn [collectNetworkSpeeds]. rewrite Hit.
  by destruct (collectNetworkSpeeds rest s).
Qed.
End backoff.

Lemma open_failure_leaves_state_witness :
  (iteration turnFailed stateB).1 = Continue stateB.
Proof.
  exact (f_equal fst (proj1 (open_failure_leaves_state turnFailed _ stateB eq_refl))).
Defined.

(** ** The allow-list *)

Lemma matchAllowed_spec `{GoText} ip allowedList :
  matchAllowed ip allowedList = true ↔ ip ∈ TrimSpace <$> allowedList.
Proof.
  induction allowedList as [|a l IH]; cbn.
  - split; [done|]. intros Hin. by apply elem_of_nil in Hin.
  - rewrite elem_of_cons. destruct (String.eqb ip (TrimSpace a)) eqn:E.
    + apply String.eqb_eq in E. naive_solver.
    + apply String.eqb_neq in E. rewrite IH. naive_solver.
Qed.

Lemma substring_all s : substring 0 (String.length s) s = s.
Proof. induction s as [|a s IH]; cbn; [done|by rewrite IH]. Qed.

Lemma sliceFrom_0 s : sliceFrom 0 s = s.
Proof. unfold sliceFrom. rewrite Nat.sub_0_r. apply substring_all. Qed.

Lemma LastIndexByte_None s c : IndexByte s c = None → LastIndexByte s c = None.
Proof.
  induction s as [|a s IH]; cbn; [done|].
  destruct (Ascii.eqb a c); [done|].
  destruct (IndexByte s c); [done|]. intros _. by rewrite IH.
Qed.

Lemma LastIndexByte_cons_Some a r c i :
  LastIndexByte r c = Some i → LastIndexByte (String a r) c = Some (S i).
Proof. intros Hr. cbn. by rewrite Hr. Qed.

Lemma LastIndexByte_here r c :
  IndexByte r c = None → LastIndexByte (String c r) c = Some O.
Proof.
  intros Hr. cbn. rewrite (LastIndexByte_None _ _ Hr). by rewrite Ascii.eqb_refl.
Qed.

Lemma IndexByte_cons_None a r c :
  Ascii.eqb a c = false → IndexByte r c = None → IndexByte (String a r) c = None.
Proof. intros Ha Hr. cbn. by rewrite Ha, Hr. Qed.


(** ** [isIPAllowed]: the source address and the allow-list *)

(** ** [isIPAllowed]: the source address and the allow-list *)

Lemma append_cons a s t : (String a s ++ t)%string = String a (s ++ t)%string.
Proof. reflexivity. Qed.

Lemma append_nil t : ("" ++ t)%string = t.
Proof. reflexivity. Qed.

Lemma IndexByte_app_None a b c :
  IndexByte a c = None → IndexByte b c = None → IndexByte (a ++ b) c = None.
Proof.
  induction a as [|x a IH]; intros Ha Hb; [done|].
  rewrite append_cons. cbn in Ha |- *.
  destruct (Ascii.eqb x c); [done|].
  destruct (IndexByte a c) eqn:E; [done|]. by rewrite IH.
Qed.

Lemma IndexByte_app_first a r c :
  IndexByte a c = None → IndexByte (a ++ String c r) c = Some (String.length a).
Proof.
  induction a as [|x a IH]; intros Ha.
  - rewrite append_nil. cbn. by rewrite Ascii.eqb_refl.
  - rewrite append_cons. cbn in Ha |- *.
    destruct (Ascii.eqb x c); [done|].
    destruct (IndexByte a c) eqn:E; [done|]. by rewrite IH.
Qed.

Lemma IndexByte_app_Some a b c i :
  IndexByte a c = Some i → IndexByte (a ++ b) c = Some i.
Proof.
  revert i. induction a as [|x a IH]; intros i Ha; [done|].
  rewrite append_cons. cbn in Ha |- *.
  destruct (Ascii.eqb x c); [done|].
  destruct (IndexByte a c) eqn:E; [|done]. by rewrite (IH _ eq_refl).
Qed.

Lemma LastIndexByte_app a r c :
  IndexByte r c = None →
  LastIndexByte (a ++ String c r) c = Some (String.length a).
Proof.
  intros Hr. induction a as [|x a IH].
  - rewrite append_nil. by apply LastIndexByte_here.
  - rewrite append_cons. by apply LastIndexByte_cons_Some.
Qed.

Lemma substring_app_l a b : substring 0 (String.length a) (a ++ b) = a.
Proof.
  induction a as [|x a IH]; [by destruct b|].
  rewrite append_cons. cbn. by rewrite IH.
Qed.

Lemma length_append a b :
  String.length (a ++ b) = (String.length a + String.length b)%nat.
Proof.
  induction a as [|x a IH]; [done|]. rewrite append_cons. cbn. by rewrite IH.
Qed.

Lemma sliceFrom_cons n x s : sliceFrom (S n) (String x s) = sliceFrom n s.
Proof. reflexivity. Qed.

Lemma sliceFrom_app a b : sliceFrom (String.length a) (a ++ b) = b.
Proof.
  induction a as [|x a IH]; [apply sliceFrom_0|].
  rewrite append_cons. cbn [String.length]. by rewrite sliceFrom_cons.
Qed.

Lemma sliceFrom_app_cons a x b : sliceFrom (S (String.length a)) (a ++ String x b) = b.
Proof.
  induction a as [|y a IH].
  - rewrite append_nil. cbn [String.length]. by rewrite sliceFrom_cons, sliceFrom_0.
  - rewrite append_cons. cbn [String.length]. by rewrite sliceFrom_cons.
Qed.

(** [SplitHostPort] on an address that does not start with a bracket. *)
Lemma SplitHostPort_unbracketed hostport i :
  LastIndexByte hostport ":" = Some i →
  (∀ r, hostport ≠ String "[" r) →
  SplitHostPort hostport =
    if IndexByte (substring 0 i hostport) ":" is Some _ then None
    else if IndexByte hostport "[" is Some _ then None
    else if IndexByte hostport "]" is Some _ then None
    else Some (substring 0 i hostport, sliceFrom (S i) hostport).
Proof.
  intros Hi Hb. unfold SplitHostPort. rewrite Hi, sliceFrom_0.
  destruct hostport as [|a r]; [done|]. cbn [String.get].
  destruct a as [[] [] [] [] [] [] [] []]; try reflexivity.
  by destruct (Hb r).
Qed.

Lemma LastIndexByte_two a b r c :
  IndexByte r c = None →
  LastIndexByte (a ++ String c (b ++ String c r)) c
  = Some (String.length a + S (String.length b))%nat.
Proof.
  intros Hr. induction a as [|x a IH].
  - rewrite append_nil. apply LastIndexByte_cons_Some. by apply LastIndexByte_app.
  - rewrite append_cons. by apply LastIndexByte_cons_Some.
Qed.

Lemma IndexByte_prefix_Some a n rest c :
  is_Some (IndexByte (substring 0 (String.length a + S n) (a ++ String c rest)) c).
Proof.
  induction a as [|x a IH].
  - rewrite append_nil. cbn. rewrite Ascii.eqb_refl. by eexists.
  - rewrite append_cons. cbn. destruct (Ascii.eqb x c); [by eexists|].
    destruct IH as [i ->]. by eexists.
Qed.

(** [SplitHostPort] on an address that starts with a bracket. *)
Lemma SplitHostPort_bracketed r i e :
  LastIndexByte (String "[" r) ":" = Some i →
  IndexByte (String "[" r) "]" = Some e →
  S e = i → S e ≠ String.length (String "[" r) →
  SplitHostPort (String "[" r) =
    if IndexByte (sliceFrom 1 (String "[" r)) "[" is Some _ then None
    else if IndexByte (sliceFrom (S e) (String "[" r)) "]" is Some _ then None
    else Some (substring 1 (e - 1) (String "[" r), sliceFrom (S i) (String "[" r)).
Proof.
  intros Hi He Hei Hlen. unfold SplitHostPort. rewrite Hi, He.
  cbn [String.get].
  destruct (S e =? String.length (String "[" r))%nat eqn:E1;
    [by apply Nat.eqb_eq in E1|].
  destruct (S e =? i)%nat eqn:E2; [done|]. by apply Nat.eqb_neq in E2.
Qed.

Lemma Split_no_sep s sep : IndexByte s sep = None → Split s sep = [s].
Proof.
  induction s as [|a s IH]; [done|]. cbn.
  destruct (Ascii.eqb a sep); [done|].
  destruct (IndexByte s sep); [done|]. intros _. by rewrite IH.
Qed.

Lemma sliceFrom_app_add a b n :
  sliceFrom (String.length a + n) (a ++ b) = sliceFrom n b.
Proof.
  induction a as [|x a IH]; [done|].
  rewrite append_cons. cbn [String.length Nat.add]. by rewrite sliceFrom_cons.
Qed.

Lemma LastIndexByte_after_bracket host port :
  IndexByte port ":" = None →
  LastIndexByte (host ++ String "]" (String ":" port)) ":"
  = Some (S (String.length host)).
Proof.
  intros Hp. induction host as [|x host IH].
  - rewrite append_nil. apply LastIndexByte_cons_Some. by apply LastIndexByte_here.
  - rewrite append_cons. by apply LastIndexByte_cons_Some.
Qed.

(** "host:port", for a host and a port free of colons and brackets. *)
Lemma SplitHostPort_plain host port :
  IndexByte host ":" = None → IndexByte host "[" = None →
  IndexByte host "]" = None →
  IndexByte port ":" = None → IndexByte port "[" = None →
  IndexByte port "]" = None →
  SplitHostPort (host ++ String ":" port) = Some (host, port).
Proof.
  intros Hhc Hhl Hhr Hpc Hpl Hpr.
  rewrite (SplitHostPort_unbracketed _ (String.length host)).
  - rewrite substring_app_l, Hhc.
    rewrite !IndexByte_app_None; [|done|by cbn; rewrite ?Hpl, ?Hpr..].
    by rewrite sliceFrom_app_cons.
  - by apply LastIndexByte_app.
  - intros r Hr. destruct host as [|x host].
    + rewrite append_nil in Hr. discriminate.
    + rewrite append_cons in Hr. injection Hr as -> _. cbn in Hhl. done.
Qed.

(** "[host]:port", for a host free of brackets and a port free of colons
    and brackets. *)
Lemma SplitHostPort_in_brackets host port :
  IndexByte host "[" = None → IndexByte host "]" = None →
  IndexByte port ":" = None → IndexByte port "[" = None →
  IndexByte port "]" = None →
  SplitHostPort (String "[" (host ++ String "]" (String ":" port)))
  = Some (host, port).
Proof.
  intros Hhl Hhr Hpc Hpl Hpr.
  rewrite (SplitHostPort_bracketed _ (S (S (String.length host)))
             (S (String.length host))).
  - rewrite sliceFrom_cons, sliceFrom_0.
    rewrite IndexByte_app_None; [|done|by cbn; rewrite Hpl].
    rewrite !sliceFrom_cons, sliceFrom_app_cons.
    assert (IndexByte (String ":" port) "]" = None) as ->
      by (cbn; by rewrite Hpr).
    cbn [substring Nat.sub]. rewrite Nat.sub_0_r, substring_app_l.
    replace (S (S (String.length host))) with (String.length host + 2)%nat by lia.
    by rewrite sliceFrom_app_add, sliceFrom_cons, sliceFrom_cons, sliceFrom_0.
  - apply LastIndexByte_cons_Some. by apply LastIndexByte_after_bracket.
  - cbn. by rewrite (IndexByte_app_first host _ "]" Hhr).
  - done.
  - cbn [String.length]. rewrite length_append. cbn [String.length]. lia.
Qed.

Section allowlist.
Context `{GoText}.

(** C8. With an empty allow-list flag every request is allowed; otherwise a
    request is allowed exactly when its source IP equals one of the
    comma-separated, space-trimmed entries of the flag. The source IP is
    the address with its port suffix stripped: for every host and port
    free of colons and brackets, "host:port" has the source IP "host"
    (and "[host]:port", the form of an IPv6 peer, has the source IP "host"
    too, the brackets going with the port); an address without a colon has
    no port and is its own source IP. In particular, with the allow-list
    "10.0.0.1" (an entry that trimming leaves as it is), 10.0.0.1 is
    allowed with any port suffix and without one, and 10.0.0.2 is denied
    with any port suffix and without one. *)
Theorem isIPAllowed_spec allowedIPs remoteAddr :
  (allowedIPs = "" → isIPAllowed allowedIPs remoteAddr = true)
  ∧ (allowedIPs ≠ "" →
     (isIPAllowed allowedIPs remoteAddr = true
      ↔ sourceIP remoteAddr ∈ TrimSpace <$> Split allowedIPs ","))
  ∧ (∀ host port,
       IndexByte host ":" = None → IndexByte host "[" = None →
       IndexByte host "]" = None →
       IndexByte port ":" = None → IndexByte port "[" = None →
       IndexByte port "]" = None →
       remoteAddr = (host ++ String ":" port)%string →
       SplitHostPort remoteAddr = Some (host, port)
       ∧ sourceIP remoteAddr = host)
  ∧ (∀ host port,
       IndexByte host "[" = None → IndexByte host "]" = None →
       IndexByte port ":" = None → IndexByte port "[" = None →
       IndexByte port "]" = None →
       remoteAddr = String "[" (host ++ String "]" (String ":" port)) →
       SplitHostPort remoteAddr = Some (host, port)
       ∧ sourceIP remoteAddr = host)
  ∧ (IndexByte remoteAddr ":" = None →
     SplitHostPort remoteAddr = None ∧ sourceIP remoteAddr = remoteAddr)
  ∧ (TrimSpace "10.0.0.1" = "10.0.0.1" →
     (∀ port, IndexByte port ":" = None → IndexByte port "[" = None →
              IndexByte port "]" = None →
        isIPAllowed "10.0.0.1" ("10.0.0.1:" ++ port) = true
        ∧ isIPAllowed "10.0.0.1" ("10.0.0.2:" ++ port) = false)
     ∧ isIPAllowed "10.0.0.1" "10.0.0.1" = true
     ∧ isIPAllowed "10.0.0.1" "10.0.0.2" = false).
Proof.
  split_and!.
  - intros ->. reflexivity.
  - intros Hne. unfold isIPAllowed.
    destruct (String.eqb allowedIPs "") eqn:E.
    + by apply String.eqb_eq in E.
    + apply matchAllowed_spec.
  - intros host port Hhc Hhl Hhr Hpc Hpl Hpr ->.
    pose proof (SplitHostPort_plain host port Hhc Hhl Hhr Hpc Hpl Hpr) as Hs.
    split; [done|]. unfold sourceIP. by rewrite Hs.
  - intros host port Hhl Hhr Hpc Hpl Hpr ->.
    pose proof (SplitHostPort_in_brackets host port Hhl Hhr Hpc Hpl Hpr) as Hs.
    split; [done|]. unfold sourceIP. by rewrite Hs.
  - intros Hc.
    assert (SplitHostPort remoteAddr = None) as Hs
      by (unfold SplitHostPort; by rewrite (LastIndexByte_None _ _ Hc)).
    split; [done|]. unfold sourceIP. by rewrite Hs.
  - intros Htrim.
    assert (∀ ip, isIPAllowed "10.0.0.1" ip = String.eqb (sourceIP ip) "10.0.0.1")
      as Hallow.
    { intros ip. unfold isIPAllowed. cbn [String.eqb Ascii.eqb Bool.eqb Split].
      cbn [matchAllowed]. rewrite Htrim. by destruct (String.eqb _ _). }
    split_and!.
    + intros port Hc Hl Hr. rewrite !Hallow. unfold sourceIP.
      pose proof (SplitHostPort_plain "10.0.0.1" port eq_refl eq_refl eq_refl Hc Hl Hr)
        as H1.
      pose proof (SplitHostPort_plain "10.0.0.2" port eq_refl eq_refl eq_refl Hc Hl Hr)
        as H2.
      cbv [String.append] in H1, H2. cbv [String.append].
      by rewrite H1, H2.
    + by rewrite Hallow.
    + by rewrite Hallow.
Qed.
End allowlist.

Lemma isIPAllowed_spec_witness :
  isIPAllowed "10.0.0.1, 192.168.1.7" "192.168.1.7:40022" = true
  ∧ isIPAllowed "10.0.0.1" "10.0.0.1:40022" = true
  ∧ isIPAllowed "10.0.0.1" "10.0.0.2:40022" = false
  ∧ sourceIP "[fe80::1]:40022" = "fe80::1".
Proof.
  split; [|split_and!].
  - apply (proj1 (proj2 (isIPAllowed_spec "10.0.0.1, 192.168.1.7" "192.168.1.7:40022"))).
    + discriminate.
    + vm_compute. apply list_elem_of_further, list_elem_of_here.
  - destruct (isIPAllowed_spec "" "") as (_ & _ & _ & _ & _ & Hex).
    destruct Hex as (Hport & _ & _); [vm_compute; reflexivity|].
    apply (Hport "40022"); reflexivity.
  - destruct (isIPAllowed_spec "" "") as (_ & _ & _ & _ & _ & Hex).
    destruct Hex as (Hport & _ & _); [vm_compute; reflexivity|].
    apply (Hport "40022"); reflexivity.
  - destruct (isIPAllowed_spec "" "[fe80::1]:40022") as (_ & _ & _ & Hbr & _).
    apply (Hbr "fe80::1" "40022"); reflexivity.
Defined.

(** ** [sort.Slice] *)

Section sortSlice_facts.
Context {A : Type} (f : A → Z).

Local Abbreviation less := (λ a b : A, Before (f a) (f b)).
Local Abbreviation le := (λ a b : A, f a ≤ f b).

Lemma insertSorted_Permutation x l : insertSorted less x l ≡ₚ x :: l.
Proof.
  induction l as [|y l IH]; cbn; [done|].
  destruct (less y x); [|done]. rewrite IH. apply perm_swap.
Qed.

Lemma sortSlice_cons x l :
  sortSlice less (x :: l) = insertSorted less x (sortSlice less l).
Proof. reflexivity. Qed.

Lemma sortSlice_Permutation l : sortSlice less l ≡ₚ l.
Proof.
  induction l as [|x l IH]; [done|].
  rewrite sortSlice_cons, insertSorted_Permutation. by rewrite IH.
Qed.

Lemma insertSorted_sorted x l :
  StronglySorted le l → StronglySorted le (insertSorted less x l).
Proof.
  induction 1 as [|y l Hl IH Hy]; cbn.
  - repeat constructor.
  - unfold Before. destruct (f y <? f x) eqn:E.
    + apply Z.ltb_lt in E. constructor; [done|].
      rewrite insertSorted_Permutation. constructor; [lia|done].
    + apply Z.ltb_ge in E. constructor; [by constructor|].
      constructor; [done|].
      eapply Forall_impl; [exact Hy|]. intros z Hz. cbn in Hz. lia.
Qed.

Lemma sortSlice_sorted l : StronglySorted le (sortSlice less l).
Proof.
  induction l as [|x l IH]; [constructor|].
  rewrite sortSlice_cons. by apply insertSorted_sorted.
Qed.

(** A sorted slice is left as it is: with the iteration order of the map
    free, every sorted permutation of the keys is a possible result. *)
Lemma sortSlice_sorted_id l : StronglySorted le l → sortSlice less l = l.
Proof.
  induction 1 as [|x l Hl IH Hx]; [done|].
  rewrite sortSlice_cons, IH. destruct l as [|y l]; [done|]. cbn [insertSorted].
  apply Forall_cons in Hx as [Hxy _]. unfold Before.
  destruct (f y <? f x) eqn:E; [|done]. apply Z.ltb_lt in E. cbn in Hxy. lia.
Qed.

Lemma sortSlice_reaches_all (ks l : list A) :
  l ≡ₚ ks → StronglySorted le l →
  ∃ order, order ≡ₚ ks ∧ sortSlice less order = l.
Proof. intros Hp Hs. exists l. split; [done|]. by apply sortSlice_sorted_id. Qed.
End sortSlice_facts.

(** ** Capacity enforcement *)

Lemma lookup_foldl_delete (ks : list string) : ∀ (m : gmap string Stats) k,
  foldl (λ m iface, delete iface m) m ks !! k
  = if decide (k ∈ ks) then None else m !! k.
Proof.
  induction ks as [|k' ks IH]; intros m k; cbn.
  - rewrite decide_False; [done|apply not_elem_of_nil].
  - rewrite IH. destruct (decide (k ∈ ks)) as [Hin|Hin].
    + rewrite decide_True; [done|by right].
    + destruct (decide (k = k')) as [->|Hne].
      * rewrite lookup_delete_eq. rewrite decide_True; [done|by left].
      * rewrite lookup_delete_ne by done.
        rewrite decide_False; [done|]. rewrite elem_of_cons. naive_solver.
Qed.

Lemma dom_foldl_delete (ks : list string) (m : gmap string Stats) :
  dom (foldl (λ m iface, delete iface m) m ks) = dom m ∖ list_to_set ks.
Proof.
  apply set_eq. intros k.
  rewrite elem_of_difference, !elem_of_dom, lookup_foldl_delete, elem_of_list_to_set.
  destruct (decide (k ∈ ks)); [|naive_solver].
  split; [by intros [? ?]|naive_solver].
Qed.

Lemma keys_elem_of (stats : gmap string Stats) k : k ∈ keys stats ↔ is_Some (stats !! k).
Proof.
  unfold keys. rewrite list_elem_of_fmap. split.
  - intros ([k' st] & -> & Hin). apply elem_of_map_to_list in Hin. by eexists.
  - intros [st Hst]. exists (k, st). split; [done|]. by apply elem_of_map_to_list.
Qed.

Lemma keys_length (stats : gmap string Stats) : length (keys stats) = size stats.
Proof. unfold keys. by rewrite length_fmap, length_map_to_list. Qed.

Lemma keys_NoDup (stats : gmap string Stats) : NoDup (keys stats).
Proof. apply NoDup_fst_map_to_list. Qed.

(** What capacity enforcement does to a store that exceeds the capacity:
    it deletes the first [size stats - maxInterfaces] keys of a permutation
    of the keys that is sorted by [lastSeen]. *)
Lemma enforceCapacity_over order stats :
  order ≡ₚ keys stats → (maxInterfaces < size stats)%nat →
  ∃ evicted kept,
    (evicted ++ kept)%list ≡ₚ keys stats
    ∧ StronglySorted (λ a b, lastSeenOf stats a ≤ lastSeenOf stats b)
        (evicted ++ kept)%list
    ∧ length evicted = (size stats - maxInterfaces)%nat
    ∧ (evicted ++ kept)%list
      = sortSlice (λ a b, Before (lastSeenOf stats a) (lastSeenOf stats b)) order
    ∧ enforceCapacity order stats = foldl (λ m iface, delete iface m) stats evicted.
Proof.
  intros Hp Hsz. unfold enforceCapacity.
  destruct (maxInterfaces <? size stats)%nat eqn:E;
    [|apply Nat.ltb_ge in E; lia].
  set (sorted := sortSlice _ order).
  assert (sorted ≡ₚ keys stats) as Hps.
  { subst sorted. by rewrite (sortSlice_Permutation (lastSeenOf stats)). }
  assert (length sorted = size stats) as Hlen.
  { by rewrite Hps, keys_length. }
  exists (take (length sorted - maxInterfaces) sorted),
         (drop (length sorted - maxInterfaces) sorted).
  rewrite take_drop. split_and!; [done| |..|done|done].
  - subst sorted. apply (sortSlice_sorted (lastSeenOf stats)).
  - rewrite length_take. lia.
Qed.

(** C3. For a store of N + K entries, N the capacity (1000) and K > 0, with
    pairwise distinct [lastSeen] timestamps, capacity enforcement leaves
    exactly N of the entries, unchanged, removes exactly K, and every
    removed entry was last seen before every entry that is left: the K
    oldest go, the N newest stay. For a store of at most N entries it
    removes nothing. This holds for every order in which the keys of the
    map may be iterated. *)
Theorem capacity_evicts_exactly_the_oldest order stats :
  order ≡ₚ keys stats →
  let stats' := enforceCapacity order stats in
  (∀ K : nat,
     size stats = (maxInterfaces + K)%nat → (0 < K)%nat →
     (∀ a b sa sb, stats !! a = Some sa → stats !! b = Some sb →
                   lastSeen sa = lastSeen sb → a = b) →
     stats' ⊆ stats
     ∧ size stats' = maxInterfaces
     ∧ size (dom stats ∖ dom stats') = K
     ∧ ∀ a b sa sb,
         stats !! a = Some sa → stats' !! a = None → stats' !! b = Some sb →
         lastSeen sa < lastSeen sb)
  ∧ ((size stats ≤ maxInterfaces)%nat → stats' = stats).
Proof.
  intros Hp stats'. split.
  - intros K HK Hpos Hinj.
    destruct (enforceCapacity_over order stats Hp) as
      (evicted & kept & Hperm & Hsorted & Hlen & _ & Heq); [lia|].
    subst stats'. rewrite Heq. clear Heq.
    assert (NoDup (evicted ++ kept)%list) as Hnd
      by (rewrite Hperm; apply keys_NoDup).
    apply NoDup_app in Hnd as (Hnd1 & Hdisj & Hnd2).
    assert (∀ k, k ∈ evicted → is_Some (stats !! k)) as Hev.
    { intros k Hk. apply keys_elem_of. rewrite <- Hperm. apply elem_of_app. by left. }
    assert (list_to_set evicted ⊆ dom stats) as Hsub.
    { intros k Hk. apply elem_of_list_to_set in Hk. apply elem_of_dom. by apply Hev. }
    assert (size (dom stats ∖ list_to_set (C:=gset string) evicted) = maxInterfaces)
      as Hsize.
    { rewrite size_difference by done.
      rewrite size_dom, size_list_to_set by done. lia. }
    split_and!.
    + apply map_subseteq_spec. intros k st. rewrite lookup_foldl_delete.
      by destruct (decide (k ∈ evicted)).
    + by rewrite <- size_dom, dom_foldl_delete.
    + rewrite dom_foldl_delete.
      replace (dom stats ∖ (dom stats ∖ list_to_set evicted))
        with (list_to_set (C:=gset string) evicted).
      * rewrite size_list_to_set by done. lia.
      * apply set_eq. intros k. rewrite !elem_of_difference. split.
        -- intros Hk. split; [by apply Hsub|]. by intros [_ Hn].
        -- intros [Hd Hn].
           destruct (decide (k ∈ list_to_set (C:=gset string) evicted)); [done|].
           by destruct Hn.
    + intros a b sa sb Ha Ha' Hb. rewrite lookup_foldl_delete in Ha', Hb.
      destruct (decide (a ∈ evicted)) as [Hae|]; [|congruence].
      destruct (decide (b ∈ evicted)) as [|Hbe]; [done|].
      assert (b ∈ kept) as Hbk.
      { assert (b ∈ (evicted ++ kept)%list) as Hin
          by (rewrite Hperm; apply keys_elem_of; by eexists).
        apply elem_of_app in Hin as [|]; done. }
      pose proof (StronglySorted_app_1_elem_of _ _ _ _ _ Hsorted Hae Hbk) as Hle.
      cbn in Hle. unfold lastSeenOf in Hle. rewrite Ha, Hb in Hle.
      assert (lastSeen sa ≠ lastSeen sb); [|lia].
      intros Heq. assert (a = b) as -> by by eapply Hinj. done.
  - intros Hle. subst stats'. unfold enforceCapacity.
    destruct (maxInterfaces <? size stats)%nat eqn:E; [|done].
    apply Nat.ltb_lt in E. lia.
Qed.

(** C6 (amended). Capacity enforcement does not depend on the order in
    which the keys of the map are iterated when the [lastSeen] timestamps
    of the store are pairwise distinct: any two runs over the same store
    evict the same entries. With ties in [lastSeen] the iteration order
    decides which of the tied entries goes. *)
Theorem eviction_deterministic_without_ties order1 order2 stats :
  order1 ≡ₚ keys stats → order2 ≡ₚ keys stats →
  (∀ a b sa sb, stats !! a = Some sa → stats !! b = Some sb →
                lastSeen sa = lastSeen sb → a = b) →
  enforceCapacity order1 stats = enforceCapacity order2 stats.
Proof.
  intros Hp1 Hp2 Hinj. unfold enforceCapacity.
  destruct (maxInterfaces <? size stats)%nat; [|done].
  assert (sortSlice (λ a b, Before (lastSeenOf stats a) (lastSeenOf stats b)) order1
          = sortSlice (λ a b, Before (lastSeenOf stats a) (lastSeenOf stats b)) order2)
    as ->; [|done].
  apply (StronglySorted_unique_strong
           (λ a b, lastSeenOf stats a ≤ lastSeenOf stats b)).
  - intros a b Ha Hb Hab Hba.
    rewrite (sortSlice_Permutation (lastSeenOf stats)), Hp1 in Ha.
    rewrite (sortSlice_Permutation (lastSeenOf stats)), Hp2 in Hb.
    apply keys_elem_of in Ha as [sa Ha], Hb as [sb Hb].
    unfold lastSeenOf in Hab, Hba. rewrite Ha, Hb in Hab, Hba.
    eapply Hinj; [done..|lia].
  - apply (sortSlice_sorted (lastSeenOf stats)).
  - apply (sortSlice_sorted (lastSeenOf stats)).
  - rewrite !(sortSlice_Permutation (lastSeenOf stats)). by rewrite Hp1, Hp2.
Qed.

(** *** The sample stores *)

Lemma ifname_inj i j : ifname i = ifname j → i = j.
Proof.
  unfold ifname. intros Heq. apply (inj (String.app "eth")) in Heq.
  by apply (inj pretty) in Heq.
Qed.

Lemma storeOf_keys_NoDup seen n :
  NoDup ((λ i, (ifname i, sampleAt (seen i))) <$> seq 0 n).*1.
Proof.
  rewrite <- list_fmap_compose. apply NoDup_fmap_2_strong; [|apply NoDup_seq].
  intros i j _ _ Heq. by apply ifname_inj.
Qed.

Lemma storeOf_size seen n : size (storeOf seen n) = n.
Proof.
  unfold storeOf. rewrite map_size_list_to_map by apply storeOf_keys_NoDup.
  by rewrite length_fmap, length_seq.
Qed.

Lemma storeOf_lookup seen n k st :
  storeOf seen n !! k = Some st →
  ∃ i, (i < n)%nat ∧ k = ifname i ∧ st = sampleAt (seen i).
Proof.
  unfold storeOf. intros Hl. apply elem_of_list_to_map_2 in Hl.
  apply list_elem_of_fmap in Hl as (i & Heq & Hi). simplify_eq.
  exists i. split; [|done]. apply elem_of_seq in Hi. lia.
Qed.

Lemma storeOf_keys seen n : keys (storeOf seen n) ≡ₚ ifname <$> seq 0 n.
Proof.
  unfold keys, storeOf.
  rewrite map_to_list_to_map by apply storeOf_keys_NoDup.
  by rewrite <- list_fmap_compose.
Qed.

Lemma storeOf_distinct seen n :
  (∀ i j, seen i = seen j → i = j) →
  ∀ a b sa sb, storeOf seen n !! a = Some sa → storeOf seen n !! b = Some sb →
               lastSeen sa = lastSeen sb → a = b.
Proof.
  intros Hseen a b sa sb Ha Hb Heq.
  apply storeOf_lookup in Ha as (i & _ & -> & ->), Hb as (j & _ & -> & ->).
  cbn in Heq. by rewrite (Hseen i j Heq).
Qed.

Lemma capacity_evicts_exactly_the_oldest_witness :
  size (enforceCapacity (keys rampStore) rampStore) = maxInterfaces.
Proof.
  refine (proj1 (proj2 (proj1
    (capacity_evicts_exactly_the_oldest (keys rampStore) rampStore _) 1%nat _ _ _))).
  - reflexivity.
  - apply storeOf_size.
  - lia.
  - apply storeOf_distinct. intros i j. lia.
Defined.

Lemma eviction_deterministic_without_ties_witness :
  enforceCapacity (keys rampStore) rampStore
  = enforceCapacity (ifname <$> seq 0 1001) rampStore.
Proof.
  apply eviction_deterministic_without_ties.
  - reflexivity.
  - symmetry. apply storeOf_keys.
  - apply storeOf_distinct. intros i j. lia.
Defined.

(** C6, as stated, fails: in [tieStore] eth0 and eth1 tie for the oldest
    [lastSeen] and one entry must go. Run on the key order [tieOrder1] the
    eviction removes eth0 and keeps eth1; run on [tieOrder2] it removes
    eth1 and keeps eth0. *)
Lemma tie_eviction_counterexample :
  tieOrder1 ≡ₚ keys tieStore ∧ tieOrder2 ≡ₚ keys tieStore
  ∧ lastSeenOf tieStore "eth0" = lastSeenOf tieStore "eth1"
  ∧ enforceCapacity tieOrder1 tieStore !! "eth0" = None
  ∧ enforceCapacity tieOrder2 tieStore !! "eth0" = Some (sampleAt 1)
  ∧ enforceCapacity tieOrder1 tieStore ≠ enforceCapacity tieOrder2 tieStore.
Proof.
  assert (tieOrder1 ≡ₚ keys tieStore) as H1 by (symmetry; apply storeOf_keys).
  assert (tieOrder2 ≡ₚ tieOrder1) as H2 by apply perm_swap.
  assert (enforceCapacity tieOrder1 tieStore !! "eth0" = None) as E1
    by (vm_compute; reflexivity).
  assert (enforceCapacity tieOrder2 tieStore !! "eth0" = Some (sampleAt 1)) as E2
    by (vm_compute; reflexivity).
  split_and!; [done|by rewrite H2|by vm_compute|done|done|].
  intros Heq. rewrite Heq in E1. congruence.
Qed.

(** ** The store stays well formed *)

Section well_formed.
Context `{GoTextLaws}.

Lemma processLine_wfStore w line s :
  clockReading (Now w) → wfStore (prevStats s) →
  wfStore (prevStats (stateOf (processLine w line s))).
Proof.
  intros Hnow Hwf.
  destruct (processLine_cases w line s)
    as [-> | [-> | [(_ & _ & _ & ->) | (Hn & Hl & Hv)]]]; [done..|].
  rewrite processLine_sampled by done. cbn [stateOf prevStats].
  apply map_Forall_insert_2; [|done].
  repeat split; try apply scanCounter_uint64; apply Hnow.
Qed.

Lemma cleanupOldInterfaces_wfStore now order stats :
  wfStore stats → wfStore (cleanupOldInterfaces now order stats).
Proof.
  intros Hwf k st Hk. unfold cleanupOldInterfaces, enforceCapacity in Hk.
  assert (evictStale now stats !! k = Some st) as Hk'.
  { destruct (maxInterfaces <? size (evictStale now stats))%nat; [|done].
    rewrite lookup_foldl_delete in Hk. by destruct (decide _). }
  unfold evictStale in Hk'. apply map_lookup_filter_Some in Hk' as [Hk' _].
  by apply (Hwf k).
Qed.
End well_formed.

(** * Further properties of the code *)

(** ** [cleanupOldInterfaces]: what goes and what stays *)

Lemma enforceCapacity_lookup_Some order stats k st :
  enforceCapacity order stats !! k = Some st → stats !! k = Some st.
Proof.
  unfold enforceCapacity. destruct (maxInterfaces <? size stats)%nat; [|done].
  rewrite lookup_foldl_delete. by destruct (decide _).
Qed.

Lemma evictStale_lookup_Some now stats k st :
  evictStale now stats !! k = Some st
  ↔ stats !! k = Some st ∧ ¬ (cleanupInterval < Sub now (lastSeen st)).
Proof. unfold evictStale. by rewrite map_lookup_filter_Some. Qed.

(** X1. The clean-up only removes entries: whatever the iteration order of
    the map, every entry of the store after [cleanupOldInterfaces] is an
    entry of the store before it, with the same sample. *)
Theorem cleanup_only_removes now order stats :
  cleanupOldInterfaces now order stats ⊆ stats.
Proof.
  apply map_subseteq_spec. intros k st Hk.
  apply enforceCapacity_lookup_Some in Hk.
  by apply evictStale_lookup_Some in Hk as [Hk _].
Qed.

(** X2. Staleness window of the first loop: an entry survives the stale
    eviction exactly when it was last seen at most five minutes
    (300e9 ns) before the clean-up time; an entry seen exactly five minutes
    ago stays, an older one is gone from the store after
    [cleanupOldInterfaces], whatever the capacity and the iteration
    order. *)
Theorem stale_entries_evicted now order stats k st :
  clockReading now → stats !! k = Some st → clockReading (lastSeen st) →
  (evictStale now stats !! k = Some st ↔ now - lastSeen st ≤ 300000000000)
  ∧ (300000000000 < now - lastSeen st →
     cleanupOldInterfaces now order stats !! k = None).
Proof.
  intros Hnow Hk Hseen.
  assert (evictStale now stats !! k = Some st ↔ now - lastSeen st ≤ 300000000000)
    as Hiff.
  { rewrite evictStale_lookup_Some, Sub_exact by done.
    change cleanupInterval with 300000000000. split; [intros [_ ?]; lia|].
    intros ?. split; [done|lia]. }
  split; [done|]. intros Hold.
  destruct (cleanupOldInterfaces now order stats !! k) as [st'|] eqn:E; [|done].
  apply enforceCapacity_lookup_Some in E.
  assert (st' = st) as ->.
  { apply evictStale_lookup_Some in E as [E _]. congruence. }
  apply Hiff in E. lia.
Qed.

Lemma stale_entries_evicted_witness :
  cleanupOldInterfaces 302000000000 [] (prevStats stateA) !! "eth0" = None.
Proof.
  refine (proj2 (stale_entries_evicted 302000000000 [] (prevStats stateA) "eth0"
    {| rxBytes := 1000; txBytes := 500; rxPackets := 10; txPackets := 5;
       rxErrors := 0; txErrors := 0; rxDrops := 0; txDrops := 0;
       time := 1000000000; lastSeen := 1000000000 |} _ eq_refl _) _);
    cbn [lastSeen]; unfold clockReading; lia.
Defined.

Lemma enforceCapacity_size order stats :
  order ≡ₚ keys stats →
  size (enforceCapacity order stats) = (size stats `min` maxInterfaces)%nat.
Proof.
  intros Hp. destruct (decide (maxInterfaces < size stats)%nat) as [Hgt|Hle].
  - destruct (enforceCapacity_over order stats Hp Hgt) as
      (evicted & kept & Hperm & _ & Hlen & _ & ->).
    assert (NoDup (evicted ++ kept)%list) as Hnd
      by (rewrite Hperm; apply keys_NoDup).
    apply NoDup_app in Hnd as (Hnd1 & _ & _).
    assert (list_to_set (C:=gset string) evicted ⊆ dom stats) as Hsub.
    { intros k Hk. apply elem_of_list_to_set in Hk. apply elem_of_dom.
      apply keys_elem_of. rewrite <- Hperm. apply elem_of_app. by left. }
    rewrite <- size_dom, dom_foldl_delete, size_difference by done.
    rewrite size_dom, size_list_to_set by done. lia.
  - unfold enforceCapacity.
    destruct (maxInterfaces <? size stats)%nat eqn:E;
      [apply Nat.ltb_lt in E; lia|]. lia.
Qed.

(** X3. The store is bounded: when [range] yields the keys left by the
    stale eviction (in any order), the store after [cleanupOldInterfaces]
    holds at most [maxInterfaces] = 1000 entries: as many as survived the
    stale eviction, or 1000 if more did. *)
Theorem cleanup_bounds_store now order stats :
  order ≡ₚ keys (evictStale now stats) →
  size (cleanupOldInterfaces now order stats)
    = (size (evictStale now stats) `min` 1000)%nat
  ∧ (size (cleanupOldInterfaces now order stats) ≤ 1000)%nat.
Proof.
  intros Hp. unfold cleanupOldInterfaces.
  rewrite (enforceCapacity_size _ _ Hp). change maxInterfaces with 1000%nat.
  split; lia.
Qed.

Lemma evictStale_rampStore : evictStale 1002 rampStore = rampStore.
Proof.
  apply map_filter_id. intros k st Hk.
  apply storeOf_lookup in Hk as (i & Hi & _ & ->). cbn [snd lastSeen sampleAt].
  rewrite Sub_exact by (unfold clockReading; lia).
  unfold cleanupInterval, Minute, Second. lia.
Qed.

Lemma cleanup_bounds_store_witness :
  (size (cleanupOldInterfaces 1002 (keys rampStore) rampStore) ≤ 1000)%nat.
Proof.
  refine (proj2 (cleanup_bounds_store 1002 (keys rampStore) rampStore _)).
  by rewrite evictStale_rampStore.
Defined.

(** X4. Capacity enforcement never keeps an older entry in place of a newer
    one, ties or not: for a store over the capacity and any iteration order
    of its keys, every evicted entry was last seen no later than every
    entry that is kept. *)
Theorem eviction_respects_lastSeen order stats a b sa sb :
  order ≡ₚ keys stats → (maxInterfaces < size stats)%nat →
  stats !! a = Some sa → enforceCapacity order stats !! a = None →
  enforceCapacity order stats !! b = Some sb →
  lastSeen sa ≤ lastSeen sb.
Proof.
  intros Hp Hgt Ha Ha' Hb.
  destruct (enforceCapacity_over order stats Hp Hgt) as
    (evicted & kept & Hperm & Hsorted & _ & _ & Heq).
  rewrite Heq in Ha', Hb. rewrite lookup_foldl_delete in Ha', Hb.
  destruct (decide (a ∈ evicted)) as [Hae|]; [|congruence].
  destruct (decide (b ∈ evicted)) as [|Hbe]; [done|].
  assert (b ∈ kept) as Hbk.
  { assert (b ∈ (evicted ++ kept)%list) as Hin
      by (rewrite Hperm; apply keys_elem_of; by eexists).
    apply elem_of_app in Hin as [|]; done. }
  pose proof (StronglySorted_app_1_elem_of _ _ _ _ _ Hsorted Hae Hbk) as Hle.
  cbn in Hle. unfold lastSeenOf in Hle. by rewrite Ha, Hb in Hle.
Qed.

Lemma tieStore_size : size tieStore = 1001%nat.
Proof. apply storeOf_size. Qed.

Lemma eviction_respects_lastSeen_witness :
  lastSeen (sampleAt 1) ≤ lastSeen (sampleAt 1).
Proof.
  refine (eviction_respects_lastSeen tieOrder1 tieStore "eth0" "eth1"
            (sampleAt 1) (sampleAt 1) _ _ _ _ _).
  - symmetry. apply storeOf_keys.
  - rewrite tieStore_size. unfold maxInterfaces. lia.
  - vm_compute. reflexivity.
  - vm_compute. reflexivity.
  - vm_compute. reflexivity.
Defined.

(** X5. Cleaning up twice at the same time changes nothing more: after a
    clean-up (run on an iteration order of the keys left by the stale
    eviction), a second clean-up at the same clock reading returns the
    store as it is, whatever order it iterates in. *)
Theorem cleanup_idempotent now order1 order2 stats :
  order1 ≡ₚ keys (evictStale now stats) →
  cleanupOldInterfaces now order2 (cleanupOldInterfaces now order1 stats)
  = cleanupOldInterfaces now order1 stats.
Proof.
  intros Hp. set (m := cleanupOldInterfaces now order1 stats).
  assert (evictStale now m = m) as Hstale.
  { apply map_filter_id. intros k st Hk. subst m.
    apply enforceCapacity_lookup_Some in Hk.
    by apply evictStale_lookup_Some in Hk as [_ Hk]. }
  assert (size m ≤ maxInterfaces)%nat as Hsize.
  { subst m. unfold cleanupOldInterfaces. rewrite (enforceCapacity_size _ _ Hp). lia. }
  unfold cleanupOldInterfaces at 1. rewrite Hstale. unfold enforceCapacity.
  destruct (maxInterfaces <? size m)%nat eqn:E; [|done].
  apply Nat.ltb_lt in E. lia.
Qed.

Lemma cleanup_idempotent_witness :
  cleanupOldInterfaces 1002 []
    (cleanupOldInterfaces 1002 (keys rampStore) rampStore)
  = cleanupOldInterfaces 1002 (keys rampStore) rampStore.
Proof.
  apply cleanup_idempotent. by rewrite evictStale_rampStore.
Defined.

(** ** [collectNetworkSpeeds]: one line *)

Section line_extras.
Context `{GoText}.

Lemma writesOf_label w line stats k v :
  (k, v) ∈ writesOf w line stats → k.2.1 = ifaceNameOf line.
Proof.
  unfold writesOf. intros Hin. apply elem_of_cons in Hin as [Heq|Hin].
  - by simplify_eq.
  - destruct (stats !! ifaceNameOf line) as [prev|];
      [destruct (Qlt_le_dec _ _)|]; try by apply elem_of_nil in Hin.
    unfold rateWrites in Hin.
    repeat (apply elem_of_cons in Hin as [Heq|Hin]; [by simplify_eq|]).
    by apply elem_of_nil in Hin.
Qed.

(** X6. The first time an interface is read (no sample stored for it),
    with an interface name and a description that are valid UTF-8, the
    only gauge written is its interface-info gauge: no rate, error, drop or
    packet gauge is published; the store gains exactly one entry, the
    reading, and grows by one. *)
Theorem first_observation_publishes_no_rate w line s :
  enoughFields line → live w (ifaceNameOf line) → labelsValid w line = true →
  prevStats s !! ifaceNameOf line = None →
  let s' := stateOf (processLine w line s) in
  processLine w line s = Continue s'
  ∧ publishedBy w line s =
      [((networkInterfaceInfo, (ifaceNameOf line, descriptionOf w line)), inject_Z 1)]
  ∧ (∀ k, isRateGauge k → gauges s' !! k = gauges s !! k)
  ∧ prevStats s' = <[ifaceNameOf line := readingOf w line]> (prevStats s)
  ∧ size (prevStats s') = S (size (prevStats s)).
Proof.
  intros Hn Hl Hv Hnone s'. subst s'.
  rewrite publishedBy_sampled, processLine_sampled by done.
  cbn [stateOf prevStats gauges]. unfold writesOf. rewrite Hnone.
  split_and!; [done|done| |done|by apply map_size_insert_None].
  intros k Hk. apply applyWrites_lookup_notin. cbn.
  intros Hin. apply list_elem_of_singleton in Hin. subst k. by apply Hk.
Qed.

(** X7. A line that fails the shape check, or whose interface does not
    resolve, is a loopback or is administratively down, publishes nothing:
    the line ends without a panic, no gauge is written, and the gauge
    values and the sample store are exactly what they were. *)
Theorem filtered_line_publishes_nothing w line s :
  ¬ enoughFields line ∨ ¬ live w (ifaceNameOf line) →
  let s' := stateOf (processLine w line s) in
  processLine w line s = Continue s'
  ∧ publishedBy w line s = []
  ∧ published s' = published s
  ∧ gauges s' = gauges s
  ∧ prevStats s' = prevStats s.
Proof.
  intros Hor s'.
  assert (processLine w line s = Continue s
          ∨ processLine w line s = Continue (markCurrent (ifaceNameOf line) s))
    as Hs'.
  { destruct (decide (17 ≤ length (Fields line))%nat) as [Hn|Hn].
    - right. apply processLine_skipped; [done|]. by destruct Hor.
    - left. by apply processLine_short. }
  assert (published s' = published s) as Hpub
    by (subst s'; by destruct Hs' as [-> | ->]).
  split_and!; [| |done|..]; try (subst s'; by destruct Hs' as [-> | ->]).
  unfold publishedBy. fold s'. rewrite Hpub. apply drop_all.
Qed.

(** X8. When a rate is published (the labels being valid UTF-8), the
    error, drop and packet gauges of the interface are set to the
    cumulative counters of the current reading, as they are (no difference
    to the previous sample is taken), for both directions. *)
Theorem counters_published_absolute w line s prev :
  enoughFields line → live w (ifaceNameOf line) → labelsValid w line = true →
  prevStats s !! ifaceNameOf line = Some prev →
  clockReading (time prev) → clockReading (Now w) → time prev < Now w →
  let name := ifaceNameOf line in
  let cur := readingOf w line in
  let g := gauges (stateOf (processLine w line s)) in
  g !! (networkErrors, (name, "receive")) = Some (inject_Z (rxErrors cur))
  ∧ g !! (networkErrors, (name, "transmit")) = Some (inject_Z (txErrors cur))
  ∧ g !! (networkDrops, (name, "receive")) = Some (inject_Z (rxDrops cur))
  ∧ g !! (networkDrops, (name, "transmit")) = Some (inject_Z (txDrops cur))
  ∧ g !! (networkPackets, (name, "receive")) = Some (inject_Z (rxPackets cur))
  ∧ g !! (networkPackets, (name, "transmit")) = Some (inject_Z (txPackets cur))
  ∧ length (publishedBy w line s) = 9%nat.
Proof.
  intros Hn Hl Hv Hp Ht1 Ht2 Hlt name cur g. subst g.
  rewrite publishedBy_sampled, processLine_sampled by done. cbn [stateOf gauges].
  pose proof (writesOf_NoDup w line (prevStats s)) as Hnd.
  rewrite (writesOf_rates _ _ _ prev) in * by done.
  split_and!; [..|done];
    (apply applyWrites_lookup_in; [done|]);
    unfold rateWrites; fold name; fold cur;
    repeat first [apply list_elem_of_here | apply list_elem_of_further].
Qed.

(** X9. Processing a line only concerns the interface the line names: the
    stored sample of every other interface and every gauge labelled with
    another interface are left as they were, for every line and every
    answer of the operating system, also when the line ends in a panic. *)
Theorem line_touches_only_its_interface w line s :
  let s' := stateOf (processLine w line s) in
  (∀ other, other ≠ ifaceNameOf line →
            prevStats s' !! other = prevStats s !! other)
  ∧ (∀ k, k.2.1 ≠ ifaceNameOf line → gauges s' !! k = gauges s !! k).
Proof.
  intros s'. subst s'.
  destruct (processLine_cases w line s)
    as [-> | [-> | [(_ & _ & _ & ->) | (Hn & Hl & Hv)]]]; [done..|].
  rewrite processLine_sampled by done. cbn [stateOf prevStats gauges]. split.
  - intros other Hne. by apply lookup_insert_ne.
  - intros k Hk. apply applyWrites_lookup_notin. intros Hin.
    apply list_elem_of_fmap in Hin as ([k' v] & -> & Hin).
    by apply writesOf_label in Hin.
Qed.
End line_extras.

Lemma first_observation_publishes_no_rate_witness :
  size (prevStats (stateOf (processLine (worldUp 1000000000) lineA emptyState)))
  = 1%nat.
Proof.
  exact (proj2 (proj2 (proj2 (proj2 (first_observation_publishes_no_rate
    (worldUp 1000000000) lineA emptyState enoughFields_lineA
    (live_worldUp _ _) eq_refl eq_refl))))).
Defined.

Lemma not_live_worldDown now name : ¬ live (worldDown now) name.
Proof. intros (flags & Hf & _ & Hup). vm_compute in Hf. by simplify_eq. Qed.

Lemma filtered_line_publishes_nothing_witness :
  gauges (stateOf (processLine (worldDown 3000000000) lineB stateB))
  = gauges stateB.
Proof.
  refine (proj1 (proj2 (proj2 (proj2 (filtered_line_publishes_nothing
    (worldDown 3000000000) lineB stateB _))))).
  right. apply not_live_worldDown.
Defined.

Lemma counters_published_absolute_witness :
  gauges (stateOf (processLine (worldUp 2000000000) lineB stateA))
    !! (networkDrops, ("eth0", "transmit")) = Some (inject_Z 4).
Proof.
  refine (proj1 (proj2 (proj2 (proj2 (counters_published_absolute
    (worldUp 2000000000) lineB stateA
    {| rxBytes := 1000; txBytes := 500; rxPackets := 10; txPackets := 5;
       rxErrors := 0; txErrors := 0; rxDrops := 0; txDrops := 0;
       time := 1000000000; lastSeen := 1000000000 |}
    enoughFields_lineB (live_worldUp _ _) eq_refl eq_refl _ _ _)))));
    cbn [time Now worldUp]; unfold clockReading; lia.
Defined.

(** ** [collectNetworkSpeeds]: lines in sequence and whole turns *)

Lemma cleanup_lookup_Some now order stats k st :
  cleanupOldInterfaces now order stats !! k = Some st → stats !! k = Some st.
Proof.
  intros Hk. apply enforceCapacity_lookup_Some in Hk.
  by apply evictStale_lookup_Some in Hk as [Hk _].
Qed.

Section loop_extras.
Context `{GoText}.

(** A property of the state that every line keeps is kept by a scan, a
    turn (if the clean-up keeps it too) and the loop, however they end. *)
Lemma scanLines_keeps (P : State → Prop) lines :
  (∀ w line s, P s → P (stateOf (processLine w line s))) →
  ∀ s, P s → P (stateOf (scanLines lines s)).
Proof.
  intros Hline. induction lines as [|[w line] lines IH]; intros s Hs; [done|].
  rewrite scanLines_cons. specialize (Hline w line s Hs).
  destruct (processLine w line s) as [s1|s1]; cbn [andThen stateOf] in *; [|done].
  by apply IH.
Qed.

Lemma iteration_stateOf t s :
  (∃ err, opened t = OpenError err ∧ stateOf (iteration t s).1 = s)
  ∨ (∃ lines s1,
       opened t = Opened lines
       ∧ s1 = stateOf (scanLines (drop 2 lines)
                 {| prevStats := prevStats s; gauges := gauges s;
                    published := published s; currentInterfaces := ∅ |})
       ∧ (stateOf (iteration t s).1 = s1
          ∨ stateOf (iteration t s).1 =
              {| prevStats := cleanupOldInterfaces (cleanupNow t) (rangeOrder t)
                                (prevStats s1);
                 gauges := gauges s1; published := published s1;
                 currentInterfaces := currentInterfaces s1 |})).
Proof.
  unfold iteration. destruct (opened t) as [err|lines]; [left; by eexists|].
  right. eexists _, _. split; [done|]. split; [done|].
  destruct (scanLines _ _); [by right|by left].
Qed.

Lemma collect_keeps (P : State → Prop) turns :
  (∀ t s, P s → P (stateOf (iteration t s).1)) →
  ∀ s, P s → P (stateOf (collectNetworkSpeeds turns s).1).
Proof.
  intros Hturn. induction turns as [|t turns IH]; intros s Hs; [done|].
  cbn [collectNetworkSpeeds]. specialize (Hturn t s Hs).
  destruct (iteration t s) as [[s1|s1] e1]; cbn [fst stateOf] in *; [|done].
  specialize (IH s1 Hturn). by destruct (collectNetworkSpeeds turns s1).
Qed.

Lemma processLine_gauges_grow w line s k :
  is_Some (gauges s !! k) →
  is_Some (gauges (stateOf (processLine w line s)) !! k).
Proof.
  intros Hk.
  destruct (processLine_cases w line s)
    as [-> | [-> | [(_ & _ & _ & ->) | (Hn & Hl & Hv)]]]; [done..|].
  rewrite processLine_sampled by done. cbn [stateOf gauges].
  generalize (writesOf w line (prevStats s)). intros ws.
  revert Hk. generalize (gauges s).
  induction ws as [|[k' v] ws IH]; intros g Hg; [done|].
  rewrite applyWrites_cons. apply IH.
  destruct (decide (k' = k)) as [->|Hne].
  - rewrite lookup_insert_eq. by eexists.
  - by rewrite lookup_insert_ne.
Qed.

Lemma iteration_gauges_grow t s k :
  is_Some (gauges s !! k) → is_Some (gauges (stateOf (iteration t s).1) !! k).
Proof.
  intros Hk.
  destruct (iteration_stateOf t s) as [(err & _ & ->) | (lines & s1 & _ & -> & Hs)];
    [done|].
  assert (is_Some (gauges (stateOf (scanLines (drop 2 lines)
            {| prevStats := prevStats s; gauges := gauges s;
               published := published s; currentInterfaces := ∅ |})) !! k)) as Hg.
  { apply (scanLines_keeps (λ s, is_Some (gauges s !! k))); [|done].
    intros w line s0. apply processLine_gauges_grow. }
  by destruct Hs as [-> | ->].
Qed.

(** X10. No gauge is ever removed: a gauge that has a value keeps having
    one through every turn of the loop, also when its interface is evicted
    from the sample store or disappears from /proc/net/dev, and up to the
    state a panic leaves. *)
Theorem gauges_never_removed turns : ∀ s k,
  is_Some (gauges s !! k) →
  is_Some (gauges (stateOf (collectNetworkSpeeds turns s).1) !! k).
Proof.
  intros s k Hk. apply (collect_keeps (λ s, is_Some (gauges s !! k))); [|done].
  intros t s0. apply iteration_gauges_grow.
Qed.

(** X11. Reading the same line again at the same clock reading is
    harmless: for a line whose labels are valid UTF-8, the second pass
    writes only the interface-info gauge and leaves the sample store and
    every gauge value as the first pass left them. *)
Theorem replay_is_idempotent w line s :
  enoughFields line → live w (ifaceNameOf line) → labelsValid w line = true →
  clockReading (Now w) →
  let s1 := stateOf (processLine w line s) in
  let s2 := stateOf (processLine w line s1) in
  processLine w line s1 = Continue s2
  ∧ prevStats s2 = prevStats s1
  ∧ gauges s2 = gauges s1
  ∧ publishedBy w line s1 =
      [((networkInterfaceInfo, (ifaceNameOf line, descriptionOf w line)), inject_Z 1)].
Proof.
  intros Hn Hl Hv Hnow s1 s2.
  assert (prevStats s1 !! ifaceNameOf line = Some (readingOf w line)) as Hst
    by by apply processLine_stores.
  assert (writesOf w line (prevStats s1) =
    [((networkInterfaceInfo, (ifaceNameOf line, descriptionOf w line)), inject_Z 1)])
    as Hw.
  { apply writesOf_no_rates; [done|]. intros p Hp. rewrite Hst in Hp.
    simplify_eq. cbn [time readingOf]. split; [done|lia]. }
  subst s2. rewrite publishedBy_sampled, (processLine_sampled w line s1) by done.
  cbn [stateOf prevStats gauges]. rewrite Hw. split_and!; [done| | |done].
  - by apply insert_id.
  - unfold applyWrites. cbn [foldl fst snd]. apply insert_id.
    by apply info_gauge_first.
Qed.


Lemma processLine_timesAgree w line s :
  timesAgree (prevStats s) →
  timesAgree (prevStats (stateOf (processLine w line s))).
Proof.
  intros Hs.
  destruct (processLine_cases w line s)
    as [-> | [-> | [(_ & _ & _ & ->) | (Hn & Hl & Hv)]]]; [done..|].
  rewrite processLine_sampled by done. cbn [stateOf prevStats].
  by apply map_Forall_insert_2.
Qed.

Lemma iteration_timesAgree t s :
  timesAgree (prevStats s) → timesAgree (prevStats (stateOf (iteration t s).1)).
Proof.
  intros Hs.
  destruct (iteration_stateOf t s) as [(err & _ & ->) | (lines & s1 & _ & -> & Hs1)];
    [done|].
  assert (timesAgree (prevStats (stateOf (scanLines (drop 2 lines)
            {| prevStats := prevStats s; gauges := gauges s;
               published := published s; currentInterfaces := ∅ |})))) as Hg.
  { apply (scanLines_keeps (λ s, timesAgree (prevStats s))); [|done].
    intros w line s0. apply processLine_timesAgree. }
  destruct Hs1 as [-> | ->]; [done|]. cbn [prevStats].
  intros k st Hk. apply cleanup_lookup_Some in Hk. by apply (Hg k).
Qed.

(** X14. The two timestamps of a sample never differ: if [time] and
    [lastSeen] agree in every stored sample when the loop starts (as in the
    empty store), they agree in every stored sample after any number of
    turns, however the run ends; [lastSeen] is never refreshed on its
    own. *)
Theorem lastSeen_always_equals_time turns : ∀ s,
  timesAgree (prevStats s) →
  timesAgree (prevStats (stateOf (collectNetworkSpeeds turns s).1)).
Proof.
  intros s Hs. apply (collect_keeps (λ s, timesAgree (prevStats s))); [|done].
  intros t s0. apply iteration_timesAgree.
Qed.


End loop_extras.

Lemma gauges_never_removed_witness :
  is_Some (gauges (stateOf (collectNetworkSpeeds [turnFailed; turnA] stateB).1)
             !! (networkSpeedBits, ("eth0", "receive"))).
Proof.
  apply gauges_never_removed. vm_compute. by eexists.
Defined.

Lemma replay_is_idempotent_witness :
  prevStats (stateOf (processLine (worldUp 2000000000) lineB stateB))
  = prevStats stateB.
Proof.
  refine (proj1 (proj2 (replay_is_idempotent (worldUp 2000000000) lineB stateA
    enoughFields_lineB (live_worldUp _ _) eq_refl _))).
  cbn. unfold clockReading. lia.
Defined.


Lemma lastSeen_always_equals_time_witness :
  timesAgree
    (prevStats (stateOf (collectNetworkSpeeds [turnA; turnFailed] emptyState).1)).
Proof.
  apply lastSeen_always_equals_time. apply map_Forall_empty.
Defined.


(** ** A counter that really wrapped *)

Section true_wrap.
Context `{GoTextLaws}.

(** X12. A cumulative byte counter that ran over the end of its 64 bits
    between two reads is handled exactly: if [delta] bytes (fewer than
    2^64) were counted since the previous sample, so that the current
    counter is [(previous + delta) mod 2^64], the rate published for an
    interface whose name and description are valid UTF-8 is
    [delta * 8 / elapsed seconds], for either direction. *)
Theorem wrapped_counter_rate_exact w line s prev :
  enoughFields line → live w (ifaceNameOf line) → labelsValid w line = true →
  prevStats s !! ifaceNameOf line = Some prev →
  uint64 (rxBytes prev) → uint64 (txBytes prev) →
  clockReading (time prev) → clockReading (Now w) → time prev < Now w →
  let name := ifaceNameOf line in
  let cur := readingOf w line in
  let elapsed := Seconds (Now w - time prev) in
  (∀ delta, 0 ≤ delta < 2 ^ 64 →
     rxBytes cur = (rxBytes prev + delta) mod 2 ^ 64 →
     gauges (stateOf (processLine w line s))
       !! (networkSpeedBits, (name, "receive"))
     = Some (inject_Z delta * inject_Z 8 / elapsed)%Q)
  ∧ (∀ delta, 0 ≤ delta < 2 ^ 64 →
     txBytes cur = (txBytes prev + delta) mod 2 ^ 64 →
     gauges (stateOf (processLine w line s))
       !! (networkSpeedBits, (name, "transmit"))
     = Some (inject_Z delta * inject_Z 8 / elapsed)%Q).
Proof.
  intros Hn Hl Hv Hp Hrx Htx Ht1 Ht2 Hlt name cur elapsed.
  destruct (speed_gauges_sampled w line s prev Hn Hl Hv Hp Ht1 Ht2 Hlt)
    as (_ & R & _ & T).
  rewrite Sub_exact in R, T by done.
  assert (∀ c p delta, 0 ≤ delta < 2 ^ 64 → c = (p + delta) mod 2 ^ 64 →
            subUint64 c p = delta) as Hsub.
  { intros c p delta Hd ->. unfold subUint64.
    rewrite Zminus_mod_idemp_l.
    replace (p + delta - p) with delta by lia. by apply Z.mod_small. }
  subst name cur elapsed. split; intros delta Hd Hcur.
  - rewrite R. by rewrite (Hsub _ _ delta Hd Hcur).
  - rewrite T. by rewrite (Hsub _ _ delta Hd Hcur).
Qed.
End true_wrap.

Lemma wrapped_counter_rate_exact_witness :
  gauges (stateOf (processLine (worldUp 2000000000) lineB stateW))
    !! (networkSpeedBits, ("eth0", "receive"))
  = Some (inject_Z 2616 * inject_Z 8 / Seconds (2000000000 - 1000000000))%Q.
Proof.
  pose proof (wrapped_counter_rate_exact (worldUp 2000000000) lineB stateW
    {| rxBytes := 18446744073709551000; txBytes := 500;
       rxPackets := 10; txPackets := 5;
       rxErrors := 0; txErrors := 0; rxDrops := 0; txDrops := 0;
       time := 1000000000; lastSeen := 1000000000 |}
    enoughFields_lineB (live_worldUp _ _) eq_refl eq_refl) as Hw.
  cbn [rxBytes txBytes time Now worldUp] in Hw.
  destruct Hw as (Hrx & _); try (unfold uint64, clockReading; lia).
  apply Hrx; [lia|]. vm_compute. reflexivity.
Defined.

(** ** [isIPAllowed]: the source address and the allow-list *)


(** X19. An address that does not split into host and port is judged
    whole: an address without any colon, and an unbracketed address with
    more than one colon (a bare IPv6 address such as ::1), are their own
    source IP. *)
Theorem unsplittable_address_used_whole remoteAddr :
  (IndexByte remoteAddr ":" = None → sourceIP remoteAddr = remoteAddr)
  ∧ (∀ a b c, remoteAddr = (a ++ String ":" (b ++ String ":" c))%string →
              IndexByte c ":" = None → (∀ r, remoteAddr ≠ String "[" r) →
              sourceIP remoteAddr = remoteAddr).
Proof.
  split.
  - intros Hc. unfold sourceIP, SplitHostPort.
    by rewrite (LastIndexByte_None _ _ Hc).
  - intros a b c -> Hc Hb. unfold sourceIP.
    rewrite (SplitHostPort_unbracketed _ _ (LastIndexByte_two a b c ":" Hc) Hb).
    by destruct (IndexByte_prefix_Some a (String.length b)
                   (b ++ String ":" c) ":") as [i ->].
Qed.

Lemma unsplittable_address_used_whole_witness :
  sourceIP "::1" = "::1" ∧ sourceIP "10.0.0.1" = "10.0.0.1".
Proof.
  split.
  - refine (proj2 (unsplittable_address_used_whole "::1") "" "" "1" eq_refl eq_refl _).
    discriminate.
  - exact (proj1 (unsplittable_address_used_whole "10.0.0.1") eq_refl).
Defined.


(** X17. The port never matters: for a host and a port free of colons and
    brackets, the source IP of "host:port" is the host, so the decision for
    "host:port" is the decision for the bare host, whatever the
    allow-list. *)
Theorem port_suffix_is_stripped `{GoText} host port :
  IndexByte host ":" = None → IndexByte host "[" = None →
  IndexByte host "]" = None →
  IndexByte port ":" = None → IndexByte port "[" = None →
  IndexByte port "]" = None →
  SplitHostPort (host ++ String ":" port) = Some (host, port)
  ∧ sourceIP (host ++ String ":" port) = host
  ∧ ∀ allowedIPs,
      isIPAllowed allowedIPs (host ++ String ":" port)
      = isIPAllowed allowedIPs host.
Proof.
  intros Hhc Hhl Hhr Hpc Hpl Hpr.
  pose proof (SplitHostPort_plain host port Hhc Hhl Hhr Hpc Hpl Hpr) as Hs.
  split; [done|]. split; [unfold sourceIP; by rewrite Hs|].
  intros allowedIPs. unfold isIPAllowed, sourceIP. rewrite Hs.
  assert (SplitHostPort host = None) as ->; [|done].
  unfold SplitHostPort. by rewrite (LastIndexByte_None _ _ Hhc).
Qed.

Lemma port_suffix_is_stripped_witness :
  sourceIP "192.168.1.7:40022" = "192.168.1.7".
Proof.
  exact (proj1 (proj2 (port_suffix_is_stripped "192.168.1.7" "40022"
    eq_refl eq_refl eq_refl eq_refl eq_refl eq_refl))).
Defined.

(** X18. A bracketed IPv6 address with a port is judged by the address
    between the brackets: for a host free of brackets (colons allowed) and
    a port free of colons and brackets, the source IP of "[host]:port" is
    the host, so it matches an allow-list entry written without
    brackets. *)
Theorem bracketed_address_is_unwrapped `{GoText} host port :
  IndexByte host "[" = None → IndexByte host "]" = None →
  IndexByte port ":" = None → IndexByte port "[" = None →
  IndexByte port "]" = None →
  let remoteAddr := String "[" (host ++ String "]" (String ":" port)) in
  SplitHostPort remoteAddr = Some (host, port)
  ∧ sourceIP remoteAddr = host
  ∧ (TrimSpace host = host → host ≠ "" → IndexByte host "," = None →
     isIPAllowed host remoteAddr = true).
Proof.
  intros Hhl Hhr Hpc Hpl Hpr remoteAddr.
  pose proof (SplitHostPort_in_brackets host port Hhl Hhr Hpc Hpl Hpr) as Hs.
  fold remoteAddr in Hs.
  split; [done|].
  assert (sourceIP remoteAddr = host) as Hip by (unfold sourceIP; by rewrite Hs).
  split; [done|]. intros Htrim Hne Hcomma.
  unfold isIPAllowed. rewrite Hip.
  destruct (String.eqb host "") eqn:E; [done|].
  apply matchAllowed_spec. apply list_elem_of_fmap. exists host. split; [done|].
  rewrite (Split_no_sep _ _ Hcomma). apply list_elem_of_here.
Qed.

Lemma bracketed_address_is_unwrapped_witness :
  isIPAllowed "fe80::1" "[fe80::1]:40022" = true.
Proof.
  refine (proj2 (proj2 (bracketed_address_is_unwrapped "fe80::1" "40022"
    eq_refl eq_refl eq_refl eq_refl eq_refl)) _ _ eq_refl).
  - vm_compute. reflexivity.
  - discriminate.
Defined.

Lemma Split_nonempty s sep : Split s sep ≠ [].
Proof.
  destruct s as [|a s]; [done|]. cbn.
  destruct (Ascii.eqb a sep); [done|]. by destruct (Split s sep).
Qed.

Lemma Split_app a b sep :
  Split (a ++ String sep b) sep = (Split a sep ++ Split b sep)%list.
Proof.
  induction a as [|x a IH].
  - rewrite append_nil. cbn. by rewrite Ascii.eqb_refl.
  - rewrite append_cons. cbn. destruct (Ascii.eqb x sep).
    + by rewrite IH.
    + rewrite IH. pose proof (Split_nonempty a sep).
      by destruct (Split a sep).
Qed.

Lemma matchAllowed_app `{GoText} ip l1 l2 :
  matchAllowed ip (l1 ++ l2)%list = matchAllowed ip l1 || matchAllowed ip l2.
Proof.
  induction l1 as [|a l1 IH]; [done|]. cbn.
  by destruct (String.eqb ip (TrimSpace a)).
Qed.

(** X20. Allow-lists add up: for two non-empty flag values joined by a
    comma, a request is allowed exactly when one of the two allows it. An
    empty half is different: on its own it allows everyone, joined to
    another list it is just an empty entry. *)
Theorem allowlists_join `{GoText} a b remoteAddr :
  a ≠ "" → b ≠ "" →
  isIPAllowed (a ++ String "," b) remoteAddr
  = isIPAllowed a remoteAddr || isIPAllowed b remoteAddr.
Proof.
  intros Ha Hb. unfold isIPAllowed.
  assert (String.eqb (a ++ String "," b) "" = false) as ->.
  { apply String.eqb_neq. destruct a; discriminate. }
  apply String.eqb_neq in Ha, Hb. rewrite Ha, Hb.
  by rewrite Split_app, matchAllowed_app.
Qed.

Lemma allowlists_join_witness :
  isIPAllowed "10.0.0.1,192.168.1.7" "192.168.1.7:40022"
  = isIPAllowed "10.0.0.1" "192.168.1.7:40022"
    || isIPAllowed "192.168.1.7" "192.168.1.7:40022".
Proof.
  apply (allowlists_join "10.0.0.1" "192.168.1.7"); discriminate.
Defined.

(** X21. The handler of /metrics: with an empty allow-list every caller is
    served the registry; with a non-empty one a caller is answered 403
    "Access denied" exactly when its source IP is none of the trimmed
    entries, and is served the registry otherwise; a refusal carries
    nothing of the registry. *)
Theorem handler_serves_or_forbids `{GoText} allowedIPs remoteAddr registry :
  (allowedIPs = "" → metricsHandler allowedIPs remoteAddr registry = Metrics registry)
  ∧ (allowedIPs ≠ "" →
     (metricsHandler allowedIPs remoteAddr registry = Forbidden "Access denied"
      ↔ sourceIP remoteAddr ∉ TrimSpace <$> Split allowedIPs ",")
     ∧ (metricsHandler allowedIPs remoteAddr registry = Metrics registry
      ↔ sourceIP remoteAddr ∈ TrimSpace <$> Split allowedIPs ","))
  ∧ (∀ body registry',
       metricsHandler allowedIPs remoteAddr registry = Forbidden body →
       metricsHandler allowedIPs remoteAddr registry' = Forbidden body).
Proof.
  unfold metricsHandler. split_and!.
  - intros ->. reflexivity.
  - intros Hne. unfold isIPAllowed.
    apply String.eqb_neq in Hne. rewrite Hne.
    rewrite <- matchAllowed_spec.
    destruct (matchAllowed _ _); cbn; split; split; done.
  - intros body registry'. by destruct (isIPAllowed allowedIPs remoteAddr).
Qed.

Lemma handler_serves_or_forbids_witness :
  metricsHandler "10.0.0.1" "10.0.0.2:40022" (gauges stateB)
  = Forbidden "Access denied".
Proof.
  destruct (handler_serves_or_forbids "10.0.0.1" "10.0.0.2:40022" (gauges stateB))
    as (_ & H2 & _).
  destruct H2 as [Hf _]; [discriminate|]. apply Hf.
  vm_compute. intros Hin. apply list_elem_of_singleton in Hin. discriminate.
Defined.


(** ** Ranges *)

Section ranges.
Context `{GoTextLaws}.

(** X22. No published value is negative: every value a line writes to a
    gauge (throughput, errors, drops, packets, info) is at least 0, for
    every line, store and answer of the operating system; in particular a
    decreasing counter never shows as a negative rate. *)
Theorem published_values_nonnegative w line s k v :
  (k, v) ∈ publishedBy w line s → (0 <= v)%Q.
Proof.
  intros Hin.
  assert (∀ z, 0 ≤ z → (0 <= inject_Z z)%Q) as Hz.
  { intros z Hz. change 0%Q with (inject_Z 0). by rewrite <- Zle_Qle. }
  assert (∀ f, (0 <= inject_Z (scanCounter f))%Q) as Hc.
  { intros f. apply Hz. apply scanCounter_uint64. }
  destruct (processLine_cases w line s)
    as [E | [E | [(Hn & Hl & Hv & _) | (Hn & Hl & Hv)]]].
  - unfold publishedBy in Hin. rewrite E in Hin. cbn [stateOf] in Hin.
    rewrite drop_all in Hin. by apply elem_of_nil in Hin.
  - unfold publishedBy in Hin. rewrite E in Hin. cbn in Hin.
    rewrite drop_all in Hin. by apply elem_of_nil in Hin.
  - rewrite publishedBy_panics in Hin by done. by apply elem_of_nil in Hin.
  - rewrite publishedBy_sampled in Hin by done. unfold writesOf in Hin.
    apply elem_of_cons in Hin as [Heq|Hin]; [simplify_eq; by apply Hz|].
    destruct (prevStats s !! ifaceNameOf line) as [prev|];
      [|by apply elem_of_nil in Hin].
    destruct (Qlt_le_dec _ _) as [Hpos|]; [|by apply elem_of_nil in Hin].
    assert (∀ a b, (0 <= inject_Z (subUint64 a b) * bytesToBits
                         / Seconds (Sub (Now w) (time prev)))%Q) as Hrate.
    { intros a b. apply Qle_shift_div_l; [done|]. rewrite Qmult_0_l.
      apply Qmult_le_0_compat; [|done].
      apply Hz. unfold subUint64. by apply Z.mod_pos_bound. }
    unfold rateWrites in Hin. cbn [time readingOf] in Hin.
    repeat (apply elem_of_cons in Hin as [Heq|Hin];
            [simplify_eq; first [apply Hrate | apply Hc]|]).
    by apply elem_of_nil in Hin.
Qed.

Lemma scanLines_wfStore lines : ∀ s,
  Forall (λ wl, clockReading (Now wl.1)) lines →
  wfStore (prevStats s) → wfStore (prevStats (stateOf (scanLines lines s))).
Proof.
  induction lines as [|[w line] lines IH]; intros s Hc Hs; [done|].
  apply Forall_cons in Hc as [Hw Hc]. rewrite scanLines_cons.
  pose proof (processLine_wfStore w line s Hw Hs) as H1.
  destruct (processLine w line s) as [s1|s1]; cbn [andThen stateOf] in *; [|done].
  by apply IH.
Qed.

(** X15. The sample store stays well formed: if every stored sample holds
    64-bit byte counters and clock readings when the loop starts (as in the
    empty store) and every clock reading taken is one of a running process,
    the same holds after any number of turns, however the run ends; the
    range conditions under which the rates are exact are therefore met by
    every stored sample. *)
Theorem store_stays_well_formed turns : ∀ s,
  clocksOK turns → wfStore (prevStats s) →
  wfStore (prevStats (stateOf (collectNetworkSpeeds turns s).1)).
Proof.
  induction turns as [|t turns IH]; intros s Hc Hs; [done|].
  apply Forall_cons in Hc as [Ht Hc].
  cbn [collectNetworkSpeeds].
  assert (wfStore (prevStats (stateOf (iteration t s).1))) as H1.
  { destruct (iteration_stateOf t s)
      as [(err & _ & ->) | (lines & s1 & Ho & -> & Hs1)]; [done|].
    rewrite Ho in Ht.
    assert (wfStore (prevStats (stateOf (scanLines (drop 2 lines)
              {| prevStats := prevStats s; gauges := gauges s;
                 published := published s; currentInterfaces := ∅ |})))) as Hg.
    { apply scanLines_wfStore; [|done].
      clear -Ht. revert Ht. generalize 2%nat. intros n.
      revert n. induction lines as [|l lines IHl]; intros n Hl; [by destruct n|].
      destruct n; [done|]. apply Forall_cons in Hl as [_ Hl]. by apply IHl. }
    destruct Hs1 as [-> | ->]; [done|]. cbn [prevStats].
    by apply cleanupOldInterfaces_wfStore. }
  destruct (iteration t s) as [[s1|s1] e1]; cbn [fst stateOf] in *; [|done].
  specialize (IH s1 Hc H1). by destruct (collectNetworkSpeeds turns s1).
Qed.
End ranges.

Lemma published_values_nonnegative_witness :
  (0 <= inject_Z (subUint64 500 2000) * bytesToBits
        / Seconds (Sub 3000000000 2000000000))%Q.
Proof.
  apply (published_values_nonnegative (worldUp 3000000000) lineReset stateB
           (networkSpeedBits, ("eth0", "receive"))).
  vm_compute. apply list_elem_of_further, list_elem_of_here.
Defined.

Lemma store_stays_well_formed_witness :
  wfStore
    (prevStats (stateOf (collectNetworkSpeeds [turnA; turnFailed] emptyState).1)).
Proof.
  apply store_stays_well_formed.
  - repeat constructor; cbn; unfold clockReading; lia.
  - apply map_Forall_empty.
Defined.
